(** * SoftRenderer (kaolin/graphics/SoftRenderer.py): a shallow embedding

    The renderer facade of the soft rasterizer is modelled as pure functions
    over an error monad.  Float tensors are embedded over the real numbers
    (exact arithmetic); index tensors over [Z].  Geometry tensors of the
    documented shapes (B x V x 3 vertices, B x F x 3 faces) are nested lists;
    tensors whose rank is decided by a collaborator that is not part of this
    file (textures, lighting terms, the rasterizer output) are kept as a
    shape together with row-major data. *)

From Stdlib Require Import String Ascii.
From Stdlib Require Import List ZArith Reals RNsatz Lra Lia Bool Arith.
Import ListNotations.
Open Scope list_scope.

Set Implicit Arguments.

(** ** Python exceptions and the error monad *)

Inductive exn : Type :=
| UnboundLocalError (name : string)
| NameError (name : string)
| AttributeError (name : string)
| TypeError
| IndexError
| RuntimeError
| ValueError (msg : string).

Inductive result (A : Type) : Type :=
| Ok (a : A)
| Err (e : exn).

Arguments Ok {A} a.
Arguments Err {A} e.

Definition bind {A B} (m : result A) (k : A -> result B) : result B :=
  match m with
  | Ok a => k a
  | Err e => Err e
  end.

Notation "x <- m ;; k" := (bind m (fun x => k))
  (at level 61, m at next level, right associativity).

Definition is_ok {A} (m : result A) : bool :=
  match m with Ok _ => true | Err _ => false end.

Fixpoint mapM {A B} (f : A -> result B) (l : list A) : result (list B) :=
  match l with
  | [] => Ok []
  | x :: l' => y <- f x ;; ys <- mapM f l' ;; Ok (y :: ys)
  end.

(** Reading an attribute that [__init__] may have left unset. *)
Definition getattr {A} (name : string) (a : option A) : result A :=
  match a with
  | Some v => Ok v
  | None => Err (AttributeError name)
  end.

Fixpoint map2 {A B C} (f : A -> B -> C) (l : list A) (l' : list B) : list C :=
  match l, l' with
  | x :: t, y :: t' => f x y :: map2 f t t'
  | _, _ => []
  end.

(** ** Tensors of arbitrary rank: shape and row-major data *)

Record tensor (A : Type) : Type := mkTensor {
  shape : list nat;
  data : list A
}.

Arguments mkTensor {A} shape data.

Definition numel (s : list nat) : nat := fold_right Nat.mul 1%nat s.

Definition wf {A} (t : tensor A) : Prop :=
  length (data t) = numel (shape t).

(** [chunks sz n l]: the [n] consecutive blocks of [sz] elements of [l]. *)
Fixpoint chunks {A} (sz n : nat) (l : list A) : list (list A) :=
  match n with
  | O => []
  | S n' => firstn sz l :: chunks sz n' (skipn sz l)
  end.

(** Broadcasting of one dimension: equal sizes, or one of them is 1. *)
Definition bdim (m n : nat) : option nat :=
  if Nat.eqb m n then Some n
  else if Nat.eqb m 1 then Some n
  else if Nat.eqb n 1 then Some m
  else None.

Fixpoint bshape_aligned (s1 s2 : list nat) : option (list nat) :=
  match s1, s2 with
  | [], [] => Some []
  | d1 :: r1, d2 :: r2 =>
      match bdim d1 d2, bshape_aligned r1 r2 with
      | Some d, Some r => Some (d :: r)
      | _, _ => None
      end
  | _, _ => None
  end.

(** Shapes are aligned on the right: the shorter one gets leading 1s. *)
Definition pad (n : nat) (s : list nat) : list nat :=
  repeat 1%nat (n - length s) ++ s.

Definition broadcast_shape (s1 s2 : list nat) : option (list nat) :=
  let n := Nat.max (length s1) (length s2) in
  bshape_aligned (pad n s1) (pad n s2).

(** [expand s T l]: the data [l] of shape [s] repeated to the shape [T]
    (same rank, every size of [s] equal to that of [T] or 1). *)
Fixpoint expand {A} (s T : list nat) (l : list A) : list A :=
  match s, T with
  | d :: s', D :: T' =>
      if Nat.eqb d D
      then concat (map (expand s' T') (chunks (numel s') d l))
      else concat (repeat (expand s' T' l) D)
  | _, _ => l
  end.

(** An elementwise binary operator with broadcasting ([a * b], [a + b]). *)
Definition binop {A} (f : A -> A -> A) (a b : tensor A) : result (tensor A) :=
  match broadcast_shape (shape a) (shape b) with
  | None => Err RuntimeError
  | Some T =>
      let n := length T in
      Ok (mkTensor T (map2 f (expand (pad n (shape a)) T (data a))
                             (expand (pad n (shape b)) T (data b))))
  end.

Definition tmul : tensor R -> tensor R -> result (tensor R) := binop Rmult.
Definition tadd : tensor R -> tensor R -> result (tensor R) := binop Rplus.

(** [t.squeeze(k)]: drops dimension [k] when its size is 1, leaves the tensor
    as it is otherwise; [k] has to be a dimension of [t]. *)
Fixpoint squeeze_shape (k : nat) (s : list nat) : result (list nat) :=
  match k, s with
  | _, [] => Err IndexError
  | O, d :: r => Ok (if Nat.eqb d 1 then r else d :: r)
  | S k', d :: r => r' <- squeeze_shape k' r ;; Ok (d :: r')
  end.

Definition squeeze {A} (k : nat) (t : tensor A) : result (tensor A) :=
  s <- squeeze_shape k (shape t) ;; Ok (mkTensor s (data t)).

(** [torch.cat((a, b), dim=1)]. *)
Definition list_eqb (s1 s2 : list nat) : bool :=
  if list_eq_dec Nat.eq_dec s1 s2 then true else false.

Definition cat1 {A} (a b : tensor A) : result (tensor A) :=
  match shape a, shape b with
  | d0 :: d1 :: r, e0 :: e1 :: r' =>
      if Nat.eqb d0 e0 && list_eqb r r'
      then Ok (mkTensor (d0 :: (d1 + e1)%nat :: r)
                 (concat (map2 (@app A)
                            (chunks (d1 * numel r) d0 (data a))
                            (chunks (e1 * numel r) d0 (data b)))))
      else Err RuntimeError
  | _, _ => Err IndexError
  end.

(** Slices of the rasterizer output [out] (B x C x H x W, possibly with
    trailing dimensions). *)

(** [out[:, :3, :, :]] *)
Definition slice_rgb {A} (out : tensor A) : result (tensor A) :=
  match shape out with
  | d0 :: d1 :: h :: w :: r =>
      let p := numel (h :: w :: r) in
      let c := Nat.min 3 d1 in
      Ok (mkTensor (d0 :: c :: h :: w :: r)
            (concat (map (firstn (c * p)) (chunks (d1 * p) d0 (data out)))))
  | _ => Err IndexError
  end.

(** [out[:, 3, :, :]] *)
Definition select_depth {A} (out : tensor A) : result (tensor A) :=
  match shape out with
  | d0 :: d1 :: h :: w :: r =>
      let p := numel (h :: w :: r) in
      if Nat.ltb 3 d1
      then Ok (mkTensor (d0 :: h :: w :: r)
                 (concat (map (fun ch => firstn p (skipn (3 * p) ch))
                              (chunks (d1 * p) d0 (data out)))))
      else Err IndexError
  | _ => Err IndexError
  end.

(** [t.unsqueeze(1)] *)
Definition unsqueeze1 {A} (t : tensor A) : result (tensor A) :=
  match shape t with
  | d0 :: r => Ok (mkTensor (d0 :: 1%nat :: r) (data t))
  | [] => Err IndexError
  end.

(** [t.shape[0]] *)
Definition shape0 {A} (t : tensor A) : result nat :=
  match shape t with
  | d0 :: _ => Ok d0
  | [] => Err IndexError
  end.

(** ** Geometry: 3-vectors and 3 x 3 matrices over the reals *)

Open Scope R_scope.

Record vec3 : Type := V3 { vx : R; vy : R; vz : R }.

Record mat3 : Type := M3 { row0 : vec3; row1 : vec3; row2 : vec3 }.

Definition vsub (a b : vec3) : vec3 :=
  V3 (vx a - vx b) (vy a - vy b) (vz a - vz b).

Definition dot (a b : vec3) : R :=
  vx a * vx b + vy a * vy b + vz a * vz b.

Definition cross3 (a b : vec3) : vec3 :=
  V3 (vy a * vz b - vz a * vy b)
     (vz a * vx b - vx a * vz b)
     (vx a * vy b - vy a * vx b).

Definition norm (a : vec3) : R := sqrt (dot a a).

(** The epsilon of the normalisations, [1e-5]. *)
Definition eps : R := 1 / 100000.

(** [F.normalize(v, eps=1e-5)] on one row: [v / max(||v||, eps)]. *)
Definition normalize (v : vec3) : vec3 :=
  let n := Rmax (norm v) eps in
  V3 (vx v / n) (vy v / n) (vz v / n).

(** [torch.cross(a, b)] on two B x 3 tensors, called without [dim]: the
    product is taken along the first dimension whose size is 3.  That is the
    batch dimension when B = 3 and the coordinate dimension otherwise. *)
Definition torch_cross (a b : list vec3) : list vec3 :=
  match a, b with
  | [a0; a1; a2], [b0; b1; b2] =>
      [ V3 (vx a1 * vx b2 - vx a2 * vx b1)
           (vy a1 * vy b2 - vy a2 * vy b1)
           (vz a1 * vz b2 - vz a2 * vz b1);
        V3 (vx a2 * vx b0 - vx a0 * vx b2)
           (vy a2 * vy b0 - vy a0 * vy b2)
           (vz a2 * vz b0 - vz a0 * vz b2);
        V3 (vx a0 * vx b1 - vx a1 * vx b0)
           (vy a0 * vy b1 - vy a1 * vy b0)
           (vz a0 * vz b1 - vz a1 * vz b0) ]
  | _, _ => map2 cross3 a b
  end.

Definition transpose (m : mat3) : mat3 :=
  M3 (V3 (vx (row0 m)) (vx (row1 m)) (vx (row2 m)))
     (V3 (vy (row0 m)) (vy (row1 m)) (vy (row2 m)))
     (V3 (vz (row0 m)) (vz (row1 m)) (vz (row2 m))).

(** [torch.matmul(v, m)] for one row vector [v]. *)
Definition vecmat (v : vec3) (m : mat3) : vec3 :=
  V3 (vx v * vx (row0 m) + vy v * vx (row1 m) + vz v * vx (row2 m))
     (vx v * vy (row0 m) + vy v * vy (row1 m) + vz v * vy (row2 m))
     (vx v * vz (row0 m) + vy v * vz (row1 m) + vz v * vz (row2 m)).

(** The matrix-vector product [m . v] of the specification. *)
Definition matvec (m : mat3) (v : vec3) : vec3 :=
  V3 (dot (row0 m) v) (dot (row1 m) v) (dot (row2 m) v).

Fixpoint map3 {A B C D} (f : A -> B -> C -> D)
  (l1 : list A) (l2 : list B) (l3 : list C) : list D :=
  match l1, l2, l3 with
  | x :: t1, y :: t2, z :: t3 => f x y z :: map3 f t1 t2 t3
  | _, _, _ => []
  end.

(** Vertices B x V x 3 and faces B x F x 3. *)
Definition vertices_t : Type := list (list vec3).
Definition faces_t : Type := list (list (list Z)).

(** [look_at(vertices, eye, at, up)] with [eye], [at], [up] of the documented
    shape 3: each is repeated over the batch. *)
Definition look_at (vertices : vertices_t) (eye at_ up : vec3) : vertices_t :=
  let batchsize := length vertices in
  let eye := repeat eye batchsize in
  let at_ := repeat at_ batchsize in
  let up := repeat up batchsize in
  let z_axis := map normalize (map2 vsub at_ eye) in
  let x_axis := map normalize (torch_cross up z_axis) in
  let y_axis := map normalize (torch_cross z_axis x_axis) in
  let rot := map3 M3 x_axis y_axis z_axis in
  let vertices := map2 (fun vs e => map (fun v => vsub v e) vs) vertices eye in
  map2 (fun vs m => map (fun v => vecmat v (transpose m)) vs) vertices rot.

(** [look(vertices, eye, direction, up)]: one basis (batch size 1), broadcast
    over the batch. *)
Definition look (vertices : vertices_t) (eye direction : vec3)
  (up : option vec3) : vertices_t :=
  let up := match up with None => V3 0 1 0 | Some u => u end in
  let z_axis := normalize direction in
  let x_axis := normalize (cross3 up z_axis) in
  let y_axis := normalize (cross3 z_axis x_axis) in
  let rot := M3 x_axis y_axis z_axis in
  map (map (fun v => vecmat (vsub v eye) (transpose rot))) vertices.

(** [perspective_distortion(vertices, angle)] *)
Definition perspective_distortion (vertices : vertices_t) (angle : R)
  : vertices_t :=
  let angle := angle * 180 / PI in
  let width := tan angle in
  map (map (fun v =>
              let z := vz v in
              let x := vx v / (z * width) in
              let y := vy v / (z * width) in
              V3 x y z)) vertices.

(** ** The batched gather of [vertices_to_faces] *)

Definition arange (n : nat) : list Z := map Z.of_nat (seq 0 n).

(** [faces + offs[:, None, None]]: broadcasting along the batch dimension. *)
Definition add_batch_offset (faces : faces_t) (offs : list Z)
  : result faces_t :=
  if Nat.eqb (length faces) (length offs)
  then Ok (map2 (fun fs o => map (map (fun i => (i + o)%Z)) fs) faces offs)
  else if Nat.eqb (length faces) 1
  then Ok (map (fun o => map (map (fun i => (i + o)%Z)) (hd [] faces)) offs)
  else if Nat.eqb (length offs) 1
  then Ok (map (map (map (fun i => (i + hd 0%Z offs)%Z))) faces)
  else Err RuntimeError.

(** [rows[i]] for an integer index tensor entry: negative indices count from
    the end, anything outside [-n, n) is an IndexError. *)
Definition index_row {A} (rows : list A) (i : Z) : result A :=
  let n := Z.of_nat (length rows) in
  let j := (if i <? 0 then i + n else i)%Z in
  if ((0 <=? j) && (j <? n))%Z
  then match nth_error rows (Z.to_nat j) with
       | Some r => Ok r
       | None => Err IndexError
       end
  else Err IndexError.

Definition shape1 {A} (t : list (list A)) : nat :=
  match t with
  | [] => 0%nat
  | r :: _ => length r
  end.

Definition vertices_to_faces (vertices : vertices_t) (faces : faces_t)
  : result (list (list (list vec3))) :=
  let B := length vertices in
  let V := shape1 vertices in
  faces <- add_batch_offset faces
             (map (fun b => (b * Z.of_nat V)%Z) (arange B)) ;;
  let vertices := concat vertices in
  mapM (mapM (mapM (index_row vertices))) faces.

(** ** Back-face duplication *)

Definition last_dim (faces : faces_t) : nat :=
  match faces with
  | (f :: _) :: _ => length f
  | _ => 0%nat
  end.

(** [faces[:, :, idx]] *)
Definition index_last (faces : faces_t) (idx : list nat) : faces_t :=
  map (map (fun face => map (fun i => nth i face 0%Z) idx)) faces.

(** [torch.cat((a, b), dim=1)] on B x F x 3 faces. *)
Definition cat_faces (a b : faces_t) : faces_t := map2 (@app (list Z)) a b.

Definition fill_back_faces (faces : faces_t) : faces_t :=
  cat_faces faces (index_last faces (rev (seq 0 (last_dim faces)))).

(** ** The renderer *)

Open Scope string_scope.
Open Scope list_scope.

(** The arguments of [SoftRenderer.__init__]. *)
Record init_args : Type := mkArgs {
  arg_image_size : Z;
  arg_anti_aliasing : bool;
  arg_bg_color : tensor R;
  arg_fill_back : bool;
  arg_camera_mode : string;
  arg_K : option (tensor R);
  arg_rmat : option (tensor R);
  arg_tvec : option (tensor R);
  arg_perspective_distort : bool;
  arg_sigma_val : R;
  arg_dist_func : string;
  arg_dist_eps : R;
  arg_gamma_val : R;
  arg_aggr_func_rgb : string;
  arg_aggr_func_alpha : string;
  arg_texture_type : string;
  arg_viewing_angle : R;
  arg_viewing_scale : R;
  arg_eye : option (tensor R);
  arg_camera_direction : tensor R;
  arg_near : R;
  arg_far : R;
  arg_light_mode : string;
  arg_light_intensity_ambient : R;
  arg_light_intensity_directional : R;
  arg_light_color_ambient : tensor R;
  arg_light_color_directional : tensor R;
  arg_light_direction : tensor R;
  arg_device : string
}.

(** The positional arguments handed to the [SoftRasterizer] constructor. *)
Record rasterizer_args : Type := mkRasterizerArgs {
  ra_image_size : Z;
  ra_bg_color : tensor R;
  ra_near : R;
  ra_far : R;
  ra_anti_aliasing : bool;
  ra_fill_back : bool;
  ra_eps : R;
  ra_sigma_val : R;
  ra_dist_func : string;
  ra_dist_eps : R;
  ra_gamma_val : R;
  ra_aggr_func_rgb : string;
  ra_aggr_func_alpha : string;
  ra_texture_type : string
}.

(** The mode argument of [render]: [None] or a string. *)
Definition mode_in (mode : option string) (l : list string) : bool :=
  match mode with
  | None => false
  | Some m => existsb (String.eqb m) l
  end.

(** What [render] returns: [(rgb, depth, alpha)], each a tensor or [None]. *)
Definition buffers : Type :=
  (option (tensor R) * option (tensor R) * option (tensor R))%type.

Section Renderer.

(** Collaborators imported from the [softras] and [Lighting] modules. *)
Variable rasterizer : Type.
Variable SoftRasterizer : rasterizer_args -> result rasterizer.
Variable soft_rasterize :
  vertices_t -> option (tensor R) -> result (tensor R).
Variable compute_ambient_light :
  list (list (list vec3)) -> option (tensor R) -> R -> tensor R ->
  result (tensor R).
Variable compute_directional_light :
  list (list (list vec3)) -> option (tensor R) -> R -> tensor R ->
  result (tensor R).

(** The attributes of a [SoftRenderer] instance.  An attribute that only
    some camera modes set is an [option]: [None] stands for "not set". *)
Record SoftRenderer : Type := mkSoftRenderer {
  image_size : Z;
  anti_aliasing : bool;
  bg_color : tensor R;
  fill_back : bool;
  device : string;
  camera_mode : string;
  K : option (option (tensor R));
  rmat : option (option (tensor R));
  tvec : option (option (tensor R));
  perspective_distort : option bool;
  viewing_angle : option R;
  eye : option vec3;
  camera_direction : option vec3;
  near : R;
  far : R;
  sigma_val : R;
  dist_func : string;
  dist_eps : R;
  gamma_val : R;
  aggr_func_rgb : string;
  aggr_func_alpha : string;
  texture_type : string;
  light_intensity_ambient : R;
  light_intensity_directional : R;
  light_color_ambient : tensor R;
  light_color_directional : tensor R;
  light_direction : tensor R;
  rasterizer_eps : R;
  soft_rasterizer : rasterizer
}.

Definition __init__ (a : init_args) : result SoftRenderer :=
  let projection := String.eqb (arg_camera_mode a) "projection" in
  let looking := existsb (String.eqb (arg_camera_mode a)) ["look"; "look_at"] in
  let rasterizer_eps := (1 / 1000)%R in
  soft_rasterizer <-
    SoftRasterizer
      (mkRasterizerArgs (arg_image_size a) (arg_bg_color a)
         (arg_near a) (arg_far a) (arg_anti_aliasing a) (arg_fill_back a)
         rasterizer_eps (arg_sigma_val a) (arg_dist_func a)
         (arg_dist_eps a) (arg_gamma_val a) (arg_aggr_func_rgb a)
         (arg_aggr_func_alpha a) (arg_texture_type a)) ;;
  Ok {|
    image_size := arg_image_size a;
    anti_aliasing := arg_anti_aliasing a;
    bg_color := arg_bg_color a;
    fill_back := arg_fill_back a;
    device := arg_device a;
    camera_mode := arg_camera_mode a;
    K := if projection then Some (arg_K a) else None;
    rmat := if projection then Some (arg_rmat a) else None;
    tvec := if projection then Some (arg_tvec a) else None;
    perspective_distort :=
      if projection then None
      else if looking then Some (arg_perspective_distort a) else None;
    viewing_angle :=
      if projection then None
      else if looking then Some (arg_viewing_angle a) else None;
    eye :=
      if projection then None
      else if looking
      then Some (V3 0 0 (- (1 / tan (PI * arg_viewing_angle a / 180) + 1)))
      else None;
    camera_direction :=
      if projection then None
      else if looking then Some (V3 0 0 1) else None;
    near := arg_near a;
    far := arg_far a;
    sigma_val := arg_sigma_val a;
    dist_func := arg_dist_func a;
    dist_eps := arg_dist_eps a;
    gamma_val := arg_gamma_val a;
    aggr_func_rgb := arg_aggr_func_rgb a;
    aggr_func_alpha := arg_aggr_func_alpha a;
    texture_type := arg_texture_type a;
    light_intensity_ambient := arg_light_intensity_ambient a;
    light_intensity_directional := arg_light_intensity_directional a;
    light_color_ambient := arg_light_color_ambient a;
    light_color_directional := arg_light_color_directional a;
    light_direction := arg_light_direction a;
    rasterizer_eps := rasterizer_eps;
    soft_rasterizer := soft_rasterizer
  |}.

Definition lighting (self : SoftRenderer) (vertices : vertices_t)
  (faces : faces_t) (textures : option (tensor R)) : result (tensor R) :=
  faces_lighting <- vertices_to_faces vertices faces ;;
  ambient_lighting <-
    compute_ambient_light faces_lighting textures
      (light_intensity_ambient self) (light_color_ambient self) ;;
  directional_lighting <-
    compute_directional_light faces_lighting textures
      (light_intensity_directional self) (light_color_directional self) ;;
  ambient_lighting <- squeeze 2 ambient_lighting ;;
  ambient_lighting <- squeeze 2 ambient_lighting ;;
  directional_lighting <- squeeze 2 directional_lighting ;;
  directional_lighting <- squeeze 2 directional_lighting ;;
  match textures with
  | None => Err TypeError
  | Some textures =>
      lit_ambient <- tmul ambient_lighting textures ;;
      lit_directional <- tmul directional_lighting textures ;;
      tadd lit_ambient lit_directional
  end.

(** In the projection branch the names [K], [rmat] and [tvec] are locals of
    the method (they are assigned further down), so the test [K is None]
    reads a local that was never bound. *)
Definition transform_to_camera_frame (self : SoftRenderer)
  (vertices : vertices_t) : result vertices_t :=
  if String.eqb (camera_mode self) "look_at" then
    eye <- getattr "eye" (eye self) ;;
    Ok (look_at vertices eye (V3 0 0 0) (V3 0 1 0))
  else if String.eqb (camera_mode self) "look" then
    eye <- getattr "eye" (eye self) ;;
    direction <- getattr "camera_direction" (camera_direction self) ;;
    Ok (look vertices eye direction None)
  else if String.eqb (camera_mode self) "projection" then
    Err (UnboundLocalError "K")
  else Ok vertices.

(** In the projection branch the call is to a method
    [perspective_projection] that the class does not define; its arguments
    [K], [rmat], [tvec] are names bound nowhere, so the call would raise
    NameError if such a method were inherited. *)
Definition project_to_image (self : SoftRenderer)
  (vertices : vertices_t) : result vertices_t :=
  if String.eqb (camera_mode self) "look_at" then
    angle <- getattr "viewing_angle" (viewing_angle self) ;;
    Ok (perspective_distortion vertices angle)
  else if String.eqb (camera_mode self) "look" then
    angle <- getattr "viewing_angle" (viewing_angle self) ;;
    Ok (perspective_distortion vertices angle)
  else if String.eqb (camera_mode self) "projection" then
    Err (AttributeError "perspective_projection")
  else Ok vertices.

(** The first step of [render]: back-face duplication. *)
Definition fill_back_stage (self : SoftRenderer) (faces : faces_t)
  (textures : option (tensor R)) : result (faces_t * option (tensor R)) :=
  if fill_back self then
    let faces := fill_back_faces faces in
    match textures with
    | None => Err TypeError
    | Some t => t2 <- cat1 t t ;; Ok (faces, Some t2)
    end
  else Ok (faces, textures).

(** The second step: lighting, unless only depth or silhouette is asked. *)
Definition lighting_stage (self : SoftRenderer) (vertices : vertices_t)
  (faces : faces_t) (textures : option (tensor R)) (mode : option string)
  : result (option (tensor R)) :=
  if negb (mode_in mode ["depth"; "silhouette"]) then
    t <- lighting self vertices faces textures ;; Ok (Some t)
  else Ok textures.

Definition render (self : SoftRenderer) (vertices : vertices_t)
  (faces : faces_t) (textures : option (tensor R)) (mode : option string)
  (K rmat tvec : option (tensor R)) : result buffers :=
  ft <- fill_back_stage self faces textures ;;
  let faces := fst ft in
  let textures := snd ft in
  textures <- lighting_stage self vertices faces textures mode ;;
  vertices <- transform_to_camera_frame self vertices ;;
  vertices <- project_to_image self vertices ;;
  out <- soft_rasterize vertices textures ;;
  rgb <- slice_rgb out ;;
  depth <- select_depth out ;;
  b <- shape0 out ;;
  depth <- (if Nat.eqb b 1 then unsqueeze1 depth else Ok depth) ;;
  let alpha : option (tensor R) := None in
  Ok (Some rgb, Some depth, alpha).

Definition forward := render.

End Renderer.

Arguments mkSoftRenderer {rasterizer}.

(** ** Lighting over a store of tensors

    Tensors are Python objects: a variable holds a reference.  The store
    below keeps one tensor per reference, so that "this call does not write
    into its argument" can be said.  The operators [*] and [+] and the
    collaborators return new tensors; [squeeze] returns a view, which is a new
    object as well. *)

Definition loc : Type := nat.
Definition store : Type := list (tensor R).
Definition St (A : Type) : Type := store -> result (A * store).

Definition st_ret {A} (a : A) : St A := fun h => Ok (a, h).

Definition st_bind {A B} (m : St A) (k : A -> St B) : St B :=
  fun h => match m h with
           | Ok (a, h') => k a h'
           | Err e => Err e
           end.

Definition st_lift {A} (m : result A) : St A :=
  fun h => a <- m ;; Ok (a, h).

Definition st_alloc (t : tensor R) : St loc :=
  fun h => Ok (length h, h ++ [t]).

Definition st_read (l : loc) : St (tensor R) :=
  fun h => match nth_error h l with
           | Some t => Ok (t, h)
           | None => Err (NameError "dangling reference")
           end.

Notation "x <~ m ;; k" := (st_bind m (fun x => k))
  (at level 61, m at next level, right associativity).

(** [a op b] on references: reads both operands, allocates the result. *)
Definition st_binop (op : tensor R -> tensor R -> result (tensor R))
  (a b : loc) : St loc :=
  ta <~ st_read a ;; tb <~ st_read b ;; r <~ st_lift (op ta tb) ;; st_alloc r.

Definition st_squeeze (k : nat) (a : loc) : St loc :=
  ta <~ st_read a ;; r <~ st_lift (squeeze k ta) ;; st_alloc r.

Section LightingStore.

Variable rasterizer : Type.
Variable compute_ambient_light :
  list (list (list vec3)) -> option (tensor R) -> R -> tensor R ->
  result (tensor R).
Variable compute_directional_light :
  list (list (list vec3)) -> option (tensor R) -> R -> tensor R ->
  result (tensor R).

(** A call of a lighting collaborator: it reads the textures it is given
    and hands back a new tensor. *)
Definition st_light
  (f : list (list (list vec3)) -> option (tensor R) -> R -> tensor R ->
       result (tensor R))
  (fv : list (list (list vec3))) (textures : option loc)
  (intensity : R) (color : tensor R) : St loc :=
  t <~ match textures with
       | None => st_ret None
       | Some p => t <~ st_read p ;; st_ret (Some t)
       end ;;
  r <~ st_lift (f fv t intensity color) ;;
  st_alloc r.

Definition lighting_st (self : SoftRenderer rasterizer)
  (vertices : vertices_t) (faces : faces_t) (textures : option loc)
  : St loc :=
  faces_lighting <~ st_lift (vertices_to_faces vertices faces) ;;
  ambient_lighting <~
    st_light compute_ambient_light faces_lighting textures
      (light_intensity_ambient self) (light_color_ambient self) ;;
  directional_lighting <~
    st_light compute_directional_light faces_lighting textures
      (light_intensity_directional self) (light_color_directional self) ;;
  ambient_lighting <~ st_squeeze 2 ambient_lighting ;;
  ambient_lighting <~ st_squeeze 2 ambient_lighting ;;
  directional_lighting <~ st_squeeze 2 directional_lighting ;;
  directional_lighting <~ st_squeeze 2 directional_lighting ;;
  match textures with
  | None => st_lift (Err TypeError)
  | Some textures =>
      lit_ambient <~ st_binop tmul ambient_lighting textures ;;
      lit_directional <~ st_binop tmul directional_lighting textures ;;
      st_binop tadd lit_ambient lit_directional
  end.

(** The lighting stage in the words of the specification:
    [(ambient + directional) * textures], the two lighting terms squeezed
    twice at dimension 2 beforehand. *)
Definition spec_lighting (self : SoftRenderer rasterizer)
  (vertices : vertices_t) (faces : faces_t) (textures : tensor R)
  : result (tensor R) :=
  faces_lighting <- vertices_to_faces vertices faces ;;
  ambient <-
    compute_ambient_light faces_lighting (Some textures)
      (light_intensity_ambient self) (light_color_ambient self) ;;
  directional <-
    compute_directional_light faces_lighting (Some textures)
      (light_intensity_directional self) (light_color_directional self) ;;
  ambient <- squeeze 2 ambient ;;
  ambient <- squeeze 2 ambient ;;
  directional <- squeeze 2 directional ;;
  directional <- squeeze 2 directional ;;
  total <- tadd ambient directional ;;
  tmul total textures.

End LightingStore.

(** ** Record updates and sample configurations *)

Definition set_arg_camera_mode (a : init_args) (m : string) : init_args :=
  mkArgs (arg_image_size a) (arg_anti_aliasing a) (arg_bg_color a)
    (arg_fill_back a) m (arg_K a) (arg_rmat a) (arg_tvec a)
    (arg_perspective_distort a) (arg_sigma_val a) (arg_dist_func a)
    (arg_dist_eps a) (arg_gamma_val a) (arg_aggr_func_rgb a)
    (arg_aggr_func_alpha a) (arg_texture_type a) (arg_viewing_angle a)
    (arg_viewing_scale a) (arg_eye a) (arg_camera_direction a) (arg_near a)
    (arg_far a) (arg_light_mode a) (arg_light_intensity_ambient a)
    (arg_light_intensity_directional a) (arg_light_color_ambient a)
    (arg_light_color_directional a) (arg_light_direction a) (arg_device a).

Definition set_arg_eye (a : init_args) (e : option (tensor R)) : init_args :=
  mkArgs (arg_image_size a) (arg_anti_aliasing a) (arg_bg_color a)
    (arg_fill_back a) (arg_camera_mode a) (arg_K a) (arg_rmat a) (arg_tvec a)
    (arg_perspective_distort a) (arg_sigma_val a) (arg_dist_func a)
    (arg_dist_eps a) (arg_gamma_val a) (arg_aggr_func_rgb a)
    (arg_aggr_func_alpha a) (arg_texture_type a) (arg_viewing_angle a)
    (arg_viewing_scale a) e (arg_camera_direction a) (arg_near a)
    (arg_far a) (arg_light_mode a) (arg_light_intensity_ambient a)
    (arg_light_intensity_directional a) (arg_light_color_ambient a)
    (arg_light_color_directional a) (arg_light_direction a) (arg_device a).

(** The lighting configuration of a renderer. *)
Record light_config : Type := mkLight {
  lc_intensity_ambient : R;
  lc_intensity_directional : R;
  lc_color_ambient : tensor R;
  lc_color_directional : tensor R;
  lc_direction : tensor R
}.

Definition set_lighting {rasterizer} (r : SoftRenderer rasterizer)
  (l : light_config) : SoftRenderer rasterizer :=
  mkSoftRenderer (image_size r) (anti_aliasing r) (bg_color r) (fill_back r)
    (device r) (camera_mode r) (K r) (rmat r) (tvec r)
    (perspective_distort r) (viewing_angle r) (eye r) (camera_direction r)
    (near r) (far r) (sigma_val r) (dist_func r) (dist_eps r) (gamma_val r)
    (aggr_func_rgb r) (aggr_func_alpha r) (texture_type r)
    (lc_intensity_ambient l) (lc_intensity_directional l)
    (lc_color_ambient l) (lc_color_directional l) (lc_direction l)
    (rasterizer_eps r) (soft_rasterizer r).

Definition set_fill_back {rasterizer} (r : SoftRenderer rasterizer)
  (b : bool) : SoftRenderer rasterizer :=
  mkSoftRenderer (image_size r) (anti_aliasing r) (bg_color r) b
    (device r) (camera_mode r) (K r) (rmat r) (tvec r)
    (perspective_distort r) (viewing_angle r) (eye r) (camera_direction r)
    (near r) (far r) (sigma_val r) (dist_func r) (dist_eps r) (gamma_val r)
    (aggr_func_rgb r) (aggr_func_alpha r) (texture_type r)
    (light_intensity_ambient r) (light_intensity_directional r)
    (light_color_ambient r) (light_color_directional r) (light_direction r)
    (rasterizer_eps r) (soft_rasterizer r).

Definition set_eye {rasterizer} (r : SoftRenderer rasterizer)
  (e : option vec3) : SoftRenderer rasterizer :=
  mkSoftRenderer (image_size r) (anti_aliasing r) (bg_color r) (fill_back r)
    (device r) (camera_mode r) (K r) (rmat r) (tvec r)
    (perspective_distort r) (viewing_angle r) e (camera_direction r)
    (near r) (far r) (sigma_val r) (dist_func r) (dist_eps r) (gamma_val r)
    (aggr_func_rgb r) (aggr_func_alpha r) (texture_type r)
    (light_intensity_ambient r) (light_intensity_directional r)
    (light_color_ambient r) (light_color_directional r) (light_direction r)
    (rasterizer_eps r) (soft_rasterizer r).

(** The default arguments of [__init__]. *)
Definition default_args : init_args :=
  mkArgs 256 true (mkTensor [3%nat] [0; 0; 0]%R) true "projection"
    None None None true (1 / 100000)%R "euclidean" (1 / 10000)%R
    (1 / 10000)%R "softmax" "prod" "surface" 30%R 1%R None
    (mkTensor [3%nat] [0; 0; 1]%R) 1%R 100%R "surface" (1 / 2)%R (1 / 2)%R
    (mkTensor [3%nat] [1; 1; 1]%R) (mkTensor [3%nat] [1; 1; 1]%R)
    (mkTensor [3%nat] [0; 1; 0]%R) "cpu".

(** Collaborators used to run the model on concrete inputs: a rasterizer
    constructor that accepts its configuration, a rasterizer returning a
    given image, and a light that is [intensity * color] per face, of shape
    1 x 1 x 1 x 1 x 3. *)
Definition accept_rasterizer (a : rasterizer_args) : result rasterizer_args :=
  Ok a.

Definition fixed_rasterize (out : tensor R) (vertices : vertices_t)
  (textures : option (tensor R)) : result (tensor R) := Ok out.

Definition flat_light (fv : list (list (list vec3)))
  (textures : option (tensor R)) (intensity : R) (color : tensor R)
  : result (tensor R) :=
  match data color with
  | [r; g; b] =>
      Ok (mkTensor [1; 1; 1; 1; 3]%nat
            [intensity * r; intensity * g; intensity * b]%R)
  | _ => Err (ValueError "color")
  end.

(** One pixel, four channels. *)
Definition pixel : tensor R := mkTensor [1; 4; 1; 1]%nat [1; 0; 0; 2]%R.

(** One triangle in the plane z = 0, and one texture sample per face. *)
Definition triangle_vertices : vertices_t :=
  [[V3 0 0 0; V3 1 0 0; V3 0 1 0]]%R.
Definition triangle_faces : faces_t := [[[0; 1; 2]]]%Z.
Definition triangle_textures : tensor R :=
  mkTensor [1; 1; 1; 3]%nat [1; 1; 1]%R.

(** ** Definitions used to state the properties *)

(** A B x F x n index tensor. *)
Definition faces_shape (faces : faces_t) (F n : nat) : Prop :=
  Forall (fun fs => length fs = F /\ Forall (fun f => length f = n) fs) faces.

(** Entry (b, f, c) of a nested tensor. *)
Definition get3 {A} (t : list (list (list A))) (b f c : nat) : option A :=
  match nth_error t b with
  | Some x => match nth_error x f with
              | Some y => nth_error y c
              | None => None
              end
  | None => None
  end.

(** The basis of the specification: z = normalize(at - eye),
    x = normalize(up x z), y = normalize(z x x), rows (x, y, z). *)
Definition look_at_basis (eye at_ up : vec3) : mat3 :=
  let z := normalize (vsub at_ eye) in
  let x := normalize (cross3 up z) in
  let y := normalize (cross3 z x) in
  M3 x y z.

(** The transform of the specification: every vertex v goes to
    R . (v - eye). *)
Definition spec_look_at (vertices : vertices_t) (eye at_ up : vec3)
  : vertices_t :=
  map (map (fun v => matvec (look_at_basis eye at_ up) (vsub v eye))) vertices.

Definition orthonormal (m : mat3) : Prop :=
  dot (row0 m) (row0 m) = 1 /\ dot (row1 m) (row1 m) = 1
  /\ dot (row2 m) (row2 m) = 1 /\ dot (row0 m) (row1 m) = 0
  /\ dot (row1 m) (row2 m) = 0 /\ dot (row0 m) (row2 m) = 0.

(** Vertex i of batch b. *)
Definition get2 {A} (t : list (list A)) (b i : nat) : option A :=
  match nth_error t b with
  | Some vs => nth_error vs i
  | None => None
  end.

(** The rotation that [look_at] applies, by batch size. *)
Definition look_at_rotation (batchsize : nat) (eye at_ up : vec3) : mat3 :=
  if Nat.eqb batchsize 3
  then M3 (V3 0 0 0) (V3 0 0 0) (normalize (vsub at_ eye))
  else look_at_basis eye at_ up.

(** [expands s T]: the shape [s] broadcasts to [T]. *)
Definition expands (s T : list nat) : Prop :=
  Forall2 (fun d D => d = D \/ d = 1%nat) s T.

(** ** The remaining methods and the notions used for them *)

(** [shading]: a placeholder, returns None. *)
Definition shading {rasterizer} (self : SoftRenderer rasterizer)
  : result unit := Ok tt.

(** [rasterize]: after the gather it calls [soft_rasterize_cuda], a name
    that the module neither defines nor imports. *)
Definition rasterize {rasterizer} (self : SoftRenderer rasterizer)
  (vertices : vertices_t) (faces : faces_t) (textures : option (tensor R))
  : result (tensor R) :=
  face_vertices <- vertices_to_faces vertices faces ;;
  Err (NameError "soft_rasterize_cuda").

(** [textures_to_faces]: its first statement reads [vertices], a local that
    is bound only further down. *)
Definition textures_to_faces {rasterizer} (self : SoftRenderer rasterizer)
  (textures : option (tensor R)) (faces : faces_t)
  : result (list (list (list vec3))) :=
  Err (UnboundLocalError "vertices").

Definition vadd (a b : vec3) : vec3 :=
  V3 (vx a + vx b) (vy a + vy b) (vz a + vz b).

Definition vscale (k : R) (a : vec3) : vec3 :=
  V3 (k * vx a) (k * vy a) (k * vz a).

(** The basis of [look]: z = normalize(direction), x = normalize(up x z),
    y = normalize(z x x). *)
Definition look_basis (direction up : vec3) : mat3 :=
  let z := normalize direction in
  let x := normalize (cross3 up z) in
  let y := normalize (cross3 z x) in
  M3 x y z.

(** The attributes that [render] reads. *)
Definition same_render_config {r1 r2} (a : SoftRenderer r1)
  (b : SoftRenderer r2) : Prop :=
  fill_back a = fill_back b
  /\ camera_mode a = camera_mode b
  /\ eye a = eye b
  /\ camera_direction a = camera_direction b
  /\ viewing_angle a = viewing_angle b
  /\ light_intensity_ambient a = light_intensity_ambient b
  /\ light_intensity_directional a = light_intensity_directional b
  /\ light_color_ambient a = light_color_ambient b
  /\ light_color_directional a = light_color_directional b.

(** The constructor arguments that end up in those attributes. *)
Definition same_render_args (a b : init_args) : Prop :=
  arg_fill_back a = arg_fill_back b
  /\ arg_camera_mode a = arg_camera_mode b
  /\ arg_viewing_angle a = arg_viewing_angle b
  /\ arg_light_intensity_ambient a = arg_light_intensity_ambient b
  /\ arg_light_intensity_directional a = arg_light_intensity_directional b
  /\ arg_light_color_ambient a = arg_light_color_ambient b
  /\ arg_light_color_directional a = arg_light_color_directional b.

(** The nested lengths of a B x F x n tensor. *)
Definition shape3 {A} (t : list (list (list A))) : list (list nat) :=
  map (map (@length A)) t.

(** Arguments that differ from the defaults in everything [render] does
    not read. *)
Definition other_args : init_args :=
  mkArgs 64 false (mkTensor [3%nat] [1; 1; 1]%R) true "look_at"
    None None None false (1 / 100)%R "barycentric" (1 / 100)%R
    (1 / 100)%R "hard" "sum" "vertex" 30%R 2%R None
    (mkTensor [3%nat] [1; 0; 0]%R) 2%R 50%R "vertex" (1 / 2)%R (1 / 2)%R
    (mkTensor [3%nat] [1; 1; 1]%R) (mkTensor [3%nat] [1; 1; 1]%R)
    (mkTensor [3%nat] [1; 0; 0]%R) "cuda:0".

(** A light of the six-dimensional layout B x F x 1 x 1 x 1 x 3, for one
    face. *)
Definition face_light (fv : list (list (list vec3)))
  (textures : option (tensor R)) (intensity : R) (color : tensor R)
  : result (tensor R) :=
  match data color with
  | [r; g; b] =>
      Ok (mkTensor [1; 1; 1; 1; 1; 3]%nat
            [intensity * r; intensity * g; intensity * b]%R)
  | _ => Err (ValueError "color")
  end.

(** * Properties *)

(** ** The error monad *)

Lemma bind_ok_inv {A B} (m : result A) (k : A -> result B) (b : B) :
  bind m k = Ok b -> exists a, m = Ok a /\ k a = Ok b.
Proof.
  destruct m as [a|e]; simpl; intros H; [eauto | discriminate].
Qed.

Lemma bind_err_inv {A B} (m : result A) (k : A -> result B) (e : exn) :
  bind m k = Err e -> m = Err e \/ exists a, m = Ok a /\ k a = Err e.
Proof.
  destruct m as [a|e']; simpl; intros H; [right; eauto | left; congruence].
Qed.

Ltac bind_inv H :=
  let a := fresh "a" in
  let Ha := fresh "Ha" in
  apply bind_ok_inv in H; destruct H as (a & Ha & H).

(** ** Camera modes *)

Section CameraClaims.

Variable rasterizer : Type.
Variable SoftRasterizer : rasterizer_args -> result rasterizer.
Variable soft_rasterize :
  vertices_t -> option (tensor R) -> result (tensor R).
Variable compute_ambient_light compute_directional_light :
  list (list (list vec3)) -> option (tensor R) -> R -> tensor R ->
  result (tensor R).

Local Abbreviation Render :=
  (render soft_rasterize compute_ambient_light compute_directional_light).
Local Abbreviation Init := (__init__ SoftRasterizer).

(** C1 (as the code behaves): on a renderer in camera mode 'projection',
    [transform_to_camera_frame] raises UnboundLocalError for the local [K]
    it reads before binding it, [project_to_image] raises as well, and so
    every [render] call ends in an exception: no buffer is returned and
    neither the per-call [K], [rmat], [tvec] nor the stored ones are
    applied. *)
Theorem render_projection_raises :
  forall (self : SoftRenderer rasterizer) vertices faces textures mode
         K rmat tvec,
    camera_mode self = "projection" ->
    transform_to_camera_frame self vertices = Err (UnboundLocalError "K")
    /\ (exists e, project_to_image self vertices = Err e)
    /\ exists e,
         Render self vertices faces textures mode K rmat tvec = Err e.
Proof.
  intros self vertices faces textures mode K0 rmat0 tvec0 Hm.
  assert (Ht : transform_to_camera_frame self vertices
               = Err (UnboundLocalError "K")).
  { unfold transform_to_camera_frame. rewrite Hm. reflexivity. }
  split; [exact Ht|]. split.
  { unfold project_to_image. rewrite Hm. simpl. eauto. }
  unfold render.
  destruct (fill_back_stage self faces textures) as [ft|e]; simpl;
    [|eauto].
  destruct (lighting_stage _ _ _ _ _ _ _) as [tx|e]; simpl; [|eauto].
  rewrite Ht. simpl. eauto.
Qed.



(** C5: with mode 'depth' or 'silhouette' the lighting stage hands the
    textures on as they are, without calling the lighting method; hence
    two renderers that differ only in their lighting configuration
    (intensities, colors, direction) return the same result, depth
    included, from [render] with mode 'depth' on the same inputs. *)
Theorem depth_ignores_lighting :
  forall (self : SoftRenderer rasterizer) (l1 l2 : light_config)
         vertices faces textures K rmat tvec,
    lighting_stage compute_ambient_light compute_directional_light
      self vertices faces textures (Some "depth") = Ok textures
    /\ lighting_stage compute_ambient_light compute_directional_light
         self vertices faces textures (Some "silhouette") = Ok textures
    /\ Render (set_lighting self l1) vertices faces textures
         (Some "depth") K rmat tvec
       = Render (set_lighting self l2) vertices faces textures
           (Some "depth") K rmat tvec.
Proof.
  intros self l1 l2 vertices faces textures K0 rmat0 tvec0.
  split; [reflexivity|]. split; [reflexivity|].
  unfold render, lighting_stage, fill_back_stage,
    transform_to_camera_frame, project_to_image.
  reflexivity.
Qed.

(** C10: the [eye] argument of the constructor has no effect: two
    constructions that differ only in [eye] give the same renderer (or the
    same error).  In the look and look_at modes the attribute [eye] is
    [(0, 0, -(1 / tan(pi * viewing_angle / 180) + 1))], from the viewing
    angle alone; in projection mode the attribute is not set and [render]
    does not depend on it. *)
Theorem eye_argument_ignored :
  forall (a : init_args) (e1 e2 : option (tensor R)),
    Init (set_arg_eye a e1) = Init (set_arg_eye a e2)
    /\ (forall self,
          arg_camera_mode a = "look" \/ arg_camera_mode a = "look_at" ->
          Init (set_arg_eye a e1) = Ok self ->
          eye self
          = Some (V3 0 0 (- (1 / tan (PI * arg_viewing_angle a / 180) + 1))))
    /\ (forall self,
          arg_camera_mode a = "projection" ->
          Init (set_arg_eye a e1) = Ok self ->
          eye self = None
          /\ forall e vertices faces textures mode K rmat tvec,
               Render (set_eye self e) vertices faces textures mode
                 K rmat tvec
               = Render self vertices faces textures mode K rmat tvec).
Proof.
  intros a e1 e2. split; [reflexivity|]. split.
  - intros self Hm H. unfold __init__ in H. bind_inv H.
    injection H as <-. simpl.
    destruct Hm as [-> | ->]; reflexivity.
  - intros self Hm H. unfold __init__ in H. bind_inv H.
    injection H as <-. simpl. rewrite Hm. simpl. split; [reflexivity|].
    intros e vertices faces textures mode K0 rmat0 tvec0.
    unfold render, transform_to_camera_frame, project_to_image.
    simpl. try rewrite Hm. reflexivity.
Qed.

End CameraClaims.

(** *** The camera-mode properties on concrete renderers *)

Lemma render_projection_raises_witness :
  exists self,
    __init__ accept_rasterizer default_args = Ok self
    /\ camera_mode self = "projection"
    /\ transform_to_camera_frame self triangle_vertices
       = Err (UnboundLocalError "K")
    /\ (exists e, project_to_image self triangle_vertices = Err e)
    /\ exists e,
         render (fixed_rasterize pixel) flat_light flat_light self
           triangle_vertices triangle_faces (Some triangle_textures) None
           None None None = Err e.
Proof.
  eexists. split; [reflexivity|]. split; [reflexivity|].
  apply (render_projection_raises (fixed_rasterize pixel) flat_light
           flat_light).
  reflexivity.
Defined.



(** Depth rendering on a look_at renderer returns, and returns the same
    buffers, under two lighting configurations. *)
Lemma depth_render_two_lights :
  exists self,
    __init__ accept_rasterizer (set_arg_camera_mode default_args "look_at")
    = Ok self
    /\ forall l : light_config,
         render (fixed_rasterize pixel) flat_light flat_light
           (set_lighting self l) triangle_vertices triangle_faces
           (Some triangle_textures) (Some "depth") None None None
         = Ok (Some (mkTensor [1; 3; 1; 1]%nat [1; 0; 0]%R),
               Some (mkTensor [1; 1; 1; 1]%nat [2]%R),
               None).
Proof.
  eexists. split; [reflexivity|]. intros l. reflexivity.
Qed.



(** ** Perspective distortion *)

(** C4 (as the code behaves): [perspective_distortion] maps every vertex
    (x, y, z) to (x / (z * width), y / (z * width), z), the depth unchanged,
    but with width = tan(angle * 180 / pi): the conversion of the angle is
    the inverse of the one from degrees to radians.  At the angle
    pi^2 / 720 the code's width is tan(pi / 4) = 1, so the vertex (1, 1, 1)
    is left where it is, whereas the tangent of that angle (read in degrees
    or in radians) is below 1. *)
Theorem perspective_distortion_width :
  (forall vertices angle,
     perspective_distortion vertices angle
     = map (map (fun v =>
                   V3 (vx v / (vz v * tan (angle * 180 / PI)))
                      (vy v / (vz v * tan (angle * 180 / PI)))
                      (vz v))) vertices)
  /\ perspective_distortion [[V3 1 1 1]] (PI * PI / 720) = [[V3 1 1 1]]
  /\ tan (PI * PI / 720 * PI / 180) < 1
  /\ tan (PI * PI / 720) < 1.
Proof.
  pose proof PI_RGT_0 as Hpos. pose proof PI_4 as H4.
  split; [reflexivity|]. split.
  - unfold perspective_distortion. simpl.
    replace (PI * PI / 720 * 180 / PI) with (PI / 4) by (field; lra).
    rewrite tan_PI4. repeat f_equal; field.
  - rewrite <- tan_PI4. split; apply tan_increasing; nra.
Qed.

(** ** Back-face duplication *)

Lemma map_nth_seq {A} (l : list A) (d : A) :
  map (fun i => nth i l d) (seq 0 (length l)) = l.
Proof.
  induction l as [|x l IH]; [reflexivity|].
  simpl. f_equal. rewrite <- seq_shift, map_map. exact IH.
Qed.

Lemma reversed_range_index (face : list Z) :
  map (fun i => nth i face 0%Z) (rev (seq 0 (length face))) = rev face.
Proof.
  rewrite map_rev, map_nth_seq. reflexivity.
Qed.

Lemma map2_app_map {A} (f : list A -> list A) (l : list (list A)) :
  map2 (@app A) l (map f l) = map (fun x => x ++ f x) l.
Proof.
  induction l as [|x l IH]; simpl; [reflexivity | now rewrite IH].
Qed.

Lemma map2_app_diag {A} (l : list (list A)) :
  map2 (@app A) l l = map (fun x => x ++ x) l.
Proof.
  induction l as [|x l IH]; simpl; [reflexivity | now rewrite IH].
Qed.

Lemma last_dim_shape (faces : faces_t) (F n : nat) :
  faces_shape faces F n -> faces <> [] -> F <> 0%nat -> last_dim faces = n.
Proof.
  intros Hs Hne HF. destruct faces as [|fs faces]; [congruence|].
  inversion Hs as [|? ? [Hlen Hfs] _]; subst.
  destruct fs as [|f fs]; [simpl in HF; congruence|].
  inversion Hfs; subst. reflexivity.
Qed.

Lemma fill_back_faces_spec (faces : faces_t) (F n : nat) :
  faces_shape faces F n ->
  fill_back_faces faces = map (fun fs => fs ++ map (@rev Z) fs) faces.
Proof.
  intros Hs. unfold fill_back_faces, cat_faces, index_last.
  rewrite map2_app_map. apply map_ext_in. intros fs Hin. f_equal.
  pose proof (proj1 (Forall_forall _ _) Hs fs Hin) as [Hlen Hfs].
  apply map_ext_in. intros f Hf.
  assert (Hn : last_dim faces = n).
  { apply last_dim_shape with (F := F); [exact Hs| |].
    - intros ->. contradiction.
    - intros ->. destruct fs; [contradiction | discriminate]. }
  rewrite Hn.
  rewrite <- (proj1 (Forall_forall _ _) Hfs f Hf).
  apply reversed_range_index.
Qed.

Lemma list_eqb_refl (s : list nat) : list_eqb s s = true.
Proof.
  unfold list_eqb. destruct (list_eq_dec Nat.eq_dec s s); congruence.
Qed.

Lemma cat1_diag {A} (t : tensor A) (d0 d1 : nat) (r : list nat) :
  shape t = d0 :: d1 :: r ->
  cat1 t t
  = Ok (mkTensor (d0 :: (d1 + d1)%nat :: r)
          (concat (map (fun c => c ++ c)
                     (chunks (d1 * numel r) d0 (data t))))).
Proof.
  intros Hs. unfold cat1. rewrite Hs, Nat.eqb_refl, list_eqb_refl. simpl.
  rewrite map2_app_diag. reflexivity.
Qed.

Section FillBack.

Variable rasterizer : Type.
Variable soft_rasterize :
  vertices_t -> option (tensor R) -> result (tensor R).
Variable compute_ambient_light compute_directional_light :
  list (list (list vec3)) -> option (tensor R) -> R -> tensor R ->
  result (tensor R).

Local Abbreviation Render :=
  (render soft_rasterize compute_ambient_light compute_directional_light).


End FillBack.


(** *** The [eye] argument, on two constructions *)

Lemma eye_argument_ignored_witness :
  (exists self,
     arg_camera_mode (set_arg_camera_mode default_args "look_at") = "look_at"
     /\ __init__ accept_rasterizer
          (set_arg_eye (set_arg_camera_mode default_args "look_at")
             (Some (mkTensor [3%nat] [1; 2; 3]%R))) = Ok self
     /\ eye self = Some (V3 0 0 (- (1 / tan (PI * 30 / 180) + 1))))
  /\ (exists self,
        arg_camera_mode default_args = "projection"
        /\ __init__ accept_rasterizer
             (set_arg_eye default_args (Some (mkTensor [3%nat] [1; 2; 3]%R)))
           = Ok self
        /\ eye self = None).
Proof.
  split.
  - eexists. split; [reflexivity|].
    match goal with |- ?A /\ _ => assert (H : A) by reflexivity end.
    split; [exact H|].
    exact (proj1 (proj2 (eye_argument_ignored accept_rasterizer
                           (fixed_rasterize pixel) flat_light flat_light
                           (set_arg_camera_mode default_args "look_at")
                           (Some (mkTensor [3%nat] [1; 2; 3]%R)) None))
             _ (or_intror eq_refl) H).
  - eexists. split; [reflexivity|].
    match goal with |- ?A /\ _ => assert (H : A) by reflexivity end.
    split; [exact H|].
    exact (proj1 (proj2 (proj2 (eye_argument_ignored accept_rasterizer
                                  (fixed_rasterize pixel) flat_light
                                  flat_light default_args
                                  (Some (mkTensor [3%nat] [1; 2; 3]%R)) None))
                    _ eq_refl H)).
Defined.

(** ** The batched gather *)

Lemma is_ok_mapM {A B} (f : A -> result B) (l : list A) :
  is_ok (mapM f l) = forallb (fun x => is_ok (f x)) l.
Proof.
  induction l as [|x l IH]; [reflexivity|].
  simpl. destruct (f x) as [y|e]; simpl; [|reflexivity].
  rewrite <- IH. destruct (mapM f l); reflexivity.
Qed.

Lemma forallb_false_nth {A} (p : A -> bool) (l : list A) :
  forallb p l = false <->
  exists i x, nth_error l i = Some x /\ p x = false.
Proof.
  induction l as [|a l IH]; simpl.
  - split; [discriminate|]. intros (i & x & H & _). destruct i; discriminate.
  - rewrite andb_false_iff, IH. split.
    + intros [H | (i & x & Hi & Hx)].
      * exists 0%nat, a. auto.
      * exists (S i), x. auto.
    + intros (i & x & Hi & Hx). destruct i as [|i]; simpl in Hi.
      * injection Hi as ->. auto.
      * right. eauto.
Qed.

Lemma mapM_ok_nth {A B} (f : A -> result B) (l : list A) (out : list B) :
  mapM f l = Ok out ->
  forall i x, nth_error l i = Some x ->
              exists y, f x = Ok y /\ nth_error out i = Some y.
Proof.
  revert out. induction l as [|a l IH]; intros out H i x Hi.
  - destruct i; discriminate.
  - simpl in H. bind_inv H. bind_inv H. injection H as <-.
    destruct i as [|i]; simpl in Hi.
    + injection Hi as <-. eauto.
    + simpl. eapply IH; eauto.
Qed.

Lemma nth_error_map2 {A B C} (f : A -> B -> C) (l : list A) (l' : list B)
  (i : nat) :
  nth_error (map2 f l l') i
  = match nth_error l i, nth_error l' i with
    | Some x, Some y => Some (f x y)
    | _, _ => None
    end.
Proof.
  revert l' i. induction l as [|x l IH]; intros [|y l'] [|i]; simpl;
    try reflexivity.
  - destruct (nth_error l i); reflexivity.
  - apply IH.
Qed.

Lemma nth_error_offsets (B V b : nat) :
  (b < B)%nat ->
  nth_error (map (fun k => (k * Z.of_nat V)%Z) (arange B)) b
  = Some (Z.of_nat b * Z.of_nat V)%Z.
Proof.
  intros Hb. unfold arange. rewrite map_map.
  rewrite nth_error_map, nth_error_seq.
  destruct (Nat.ltb_spec b B); [reflexivity | lia].
Qed.

Lemma length_concat_rect {A} (t : list (list A)) (V : nat) :
  Forall (fun r => length r = V) t ->
  length (concat t) = (length t * V)%nat.
Proof.
  induction 1 as [|r t Hr _ IH]; simpl; [reflexivity|].
  rewrite length_app, IH, Hr. reflexivity.
Qed.

Lemma nth_error_concat_rect {A} (t : list (list A)) (V b i : nat) r v :
  Forall (fun r => length r = V) t ->
  nth_error t b = Some r -> nth_error r i = Some v ->
  nth_error (concat t) (b * V + i) = Some v.
Proof.
  intros Hrect. revert b. induction Hrect as [|r0 t Hr _ IH]; intros b Hb Hi.
  - destruct b; discriminate.
  - destruct b as [|b]; simpl in Hb |- *.
    + injection Hb as ->. rewrite nth_error_app1; [exact Hi|].
      apply nth_error_Some. congruence.
    + rewrite nth_error_app2 by lia.
      replace (V + b * V + i - length r0)%nat with (b * V + i)%nat by lia.
      apply IH; assumption.
Qed.

Lemma shape1_rect {A} (t : list (list A)) (V : nat) :
  Forall (fun r => length r = V) t -> t <> [] -> shape1 t = V.
Proof.
  intros H Hne. destruct t; [congruence|]. now inversion H.
Qed.

Lemma index_row_is_ok {A} (rows : list A) (j : Z) :
  is_ok (index_row rows j) = true <->
  (- Z.of_nat (length rows) <= j < Z.of_nat (length rows))%Z.
Proof.
  unfold index_row.
  destruct (Z.ltb_spec j 0).
  - destruct (Z.leb_spec 0 (j + Z.of_nat (length rows)));
      destruct (Z.ltb_spec (j + Z.of_nat (length rows))
                  (Z.of_nat (length rows))); simpl;
      try (split; [discriminate | lia]).
    destruct (nth_error rows _) eqn:E; simpl; [split; [lia | reflexivity]|].
    apply nth_error_None in E. lia.
  - destruct (Z.leb_spec 0 j);
      destruct (Z.ltb_spec j (Z.of_nat (length rows))); simpl;
      try (split; [discriminate | lia]).
    destruct (nth_error rows _) eqn:E; simpl; [split; [lia | reflexivity]|].
    apply nth_error_None in E. lia.
Qed.

Lemma index_row_in_range {A} (rows : list A) (j : Z) (y : A) :
  (0 <= j)%Z -> index_row rows j = Ok y ->
  nth_error rows (Z.to_nat j) = Some y.
Proof.
  intros Hj. unfold index_row.
  destruct (Z.ltb_spec j 0); [lia|].
  destruct ((0 <=? j)%Z && (j <? Z.of_nat (length rows))%Z);
    [|discriminate].
  destruct (nth_error rows (Z.to_nat j)); congruence.
Qed.

Lemma is_ok_mapM_false {A B} (f : A -> result B) (l : list A) :
  is_ok (mapM f l) = false <->
  exists i x, nth_error l i = Some x /\ is_ok (f x) = false.
Proof.
  rewrite is_ok_mapM. apply forallb_false_nth.
Qed.

Lemma is_ok_mapM3_false {A B} (g : A -> result B)
  (t : list (list (list A))) :
  is_ok (mapM (mapM (mapM g)) t) = false <->
  exists b f c x, get3 t b f c = Some x /\ is_ok (g x) = false.
Proof.
  unfold get3. rewrite is_ok_mapM_false. split.
  - intros (b & fs & Hb & H). apply is_ok_mapM_false in H.
    destruct H as (f & face & Hf & H). apply is_ok_mapM_false in H.
    destruct H as (c & x & Hc & H).
    exists b, f, c, x. rewrite Hb, Hf. auto.
  - intros (b & f & c & x & H & Hx).
    destruct (nth_error t b) as [fs|] eqn:Hb; [|discriminate].
    destruct (nth_error fs f) as [face|] eqn:Hf; [|discriminate].
    exists b, fs. split; [exact Hb|].
    apply is_ok_mapM_false. exists f, face. split; [exact Hf|].
    apply is_ok_mapM_false. eauto.
Qed.

Lemma mapM3_ok_get3 {A B} (g : A -> result B)
  (t : list (list (list A))) (out : list (list (list B))) :
  mapM (mapM (mapM g)) t = Ok out ->
  forall b f c x, get3 t b f c = Some x ->
                  exists y, g x = Ok y /\ get3 out b f c = Some y.
Proof.
  intros H b f c x Hx. unfold get3 in *.
  destruct (nth_error t b) as [fs|] eqn:Hb; [|discriminate].
  destruct (nth_error fs f) as [face|] eqn:Hf; [|discriminate].
  destruct (mapM_ok_nth _ _ H _ Hb) as (fs' & H1 & ->).
  destruct (mapM_ok_nth _ _ H1 _ Hf) as (face' & H2 & ->).
  destruct (mapM_ok_nth _ _ H2 _ Hx) as (y & H3 & ->).
  eauto.
Qed.

(** The entries of [faces + (arange(B) * V)[:, None, None]]. *)
Lemma get3_shifted (faces : faces_t) (V b f c : nat) :
  get3 (map2 (fun fs o => map (map (fun i => (i + o)%Z)) fs) faces
          (map (fun k => (k * Z.of_nat V)%Z) (arange (length faces))))
       b f c
  = option_map (fun i => (i + Z.of_nat b * Z.of_nat V)%Z)
      (get3 faces b f c).
Proof.
  unfold get3. rewrite nth_error_map2.
  destruct (nth_error faces b) as [fs|] eqn:Hb; [|reflexivity].
  assert (Hlt : (b < length faces)%nat).
  { apply nth_error_Some. congruence. }
  rewrite (nth_error_offsets V Hlt), nth_error_map.
  destruct (nth_error fs f) as [face|]; simpl; [|reflexivity].
  apply nth_error_map.
Qed.

(** C9 (amended): for vertices of shape B x V x 3 and faces with B batches,
    the gather fails exactly when some shifted index faces[b][f][c] + b * V
    lies outside the window [-B * V, B * V) of the flattened vertex list (an
    index that is out of range for its own batch but inside the window reads
    a vertex of another batch); when every face index is in [0, V), it
    succeeds and entry (b, f, c) of the result is
    vertices[b][faces[b][f][c]]. *)
Theorem vertices_to_faces_gather :
  forall (vertices : vertices_t) (faces : faces_t) (V : nat),
    Forall (fun vs => length vs = V) vertices ->
    length faces = length vertices ->
    let B := Z.of_nat (length vertices) in
    (is_ok (vertices_to_faces vertices faces) = false <->
     exists b f c i,
       get3 faces b f c = Some i
       /\ ~ (- (B * Z.of_nat V) <= i + Z.of_nat b * Z.of_nat V
             < B * Z.of_nat V)%Z)
    /\ ((forall b f c i, get3 faces b f c = Some i ->
                         (0 <= i < Z.of_nat V)%Z) ->
        exists out,
          vertices_to_faces vertices faces = Ok out
          /\ forall b f c i,
               get3 faces b f c = Some i ->
               exists vs v,
                 nth_error vertices b = Some vs
                 /\ nth_error vs (Z.to_nat i) = Some v
                 /\ get3 out b f c = Some v).
Proof.
  intros vertices faces V Hrect Hlen B.
  assert (HV : forall b f c i, get3 faces b f c = Some i ->
                               shape1 vertices = V).
  { intros b f c i H. apply shape1_rect; [exact Hrect|].
    intros ->. destruct faces; [|discriminate].
    unfold get3 in H. destruct b; discriminate. }
  assert (Hshift :
    vertices_to_faces vertices faces
    = mapM (mapM (mapM (index_row (concat vertices))))
        (map2 (fun fs o => map (map (fun i => (i + o)%Z)) fs) faces
           (map (fun k => (k * Z.of_nat (shape1 vertices))%Z)
              (arange (length faces))))).
  { unfold vertices_to_faces, add_batch_offset.
    unfold arange at 1. rewrite !length_map, length_seq, <- Hlen.
    rewrite Nat.eqb_refl. reflexivity. }
  assert (Hflat : Z.of_nat (length (concat vertices)) = (B * Z.of_nat V)%Z).
  { rewrite (length_concat_rect Hrect). unfold B. lia. }
  assert (Hfail :
    is_ok (vertices_to_faces vertices faces) = false <->
    exists b f c i,
      get3 faces b f c = Some i
      /\ ~ (- (B * Z.of_nat V) <= i + Z.of_nat b * Z.of_nat V
            < B * Z.of_nat V)%Z).
  { rewrite Hshift, is_ok_mapM3_false. split.
    - intros (b & f & c & j & Hj & Hbad). rewrite get3_shifted in Hj.
      destruct (get3 faces b f c) as [i|] eqn:Hi; [|discriminate].
      injection Hj as <-. rewrite (HV _ _ _ _ Hi) in Hbad.
      exists b, f, c, i. split; [exact Hi|].
      intros Hin. rewrite <- Hflat in Hin.
      apply index_row_is_ok in Hin. congruence.
    - intros (b & f & c & i & Hi & Hbad).
      exists b, f, c, (i + Z.of_nat b * Z.of_nat V)%Z.
      rewrite get3_shifted, Hi, (HV _ _ _ _ Hi). split; [reflexivity|].
      destruct (is_ok (index_row _ _)) eqn:E; [|reflexivity].
      apply index_row_is_ok in E. rewrite Hflat in E. contradiction. }
  split; [exact Hfail|].
  intros Hrange.
  destruct (vertices_to_faces vertices faces) as [out|e] eqn:Hout.
  - exists out. split; [reflexivity|].
    intros b f c i Hi. symmetry in Hshift.
    assert (Hj := get3_shifted faces (shape1 vertices) b f c).
    rewrite Hi in Hj. simpl in Hj.
    destruct (mapM3_ok_get3 _ _ Hshift _ _ _ Hj) as (v & Hv & Hget).
    rewrite (HV _ _ _ _ Hi) in Hv.
    pose proof (Hrange _ _ _ _ Hi) as Hr.
    apply index_row_in_range in Hv; [|lia].
    assert (Hb : (b < length vertices)%nat).
    { rewrite <- Hlen. apply nth_error_Some. unfold get3 in Hi.
      destruct (nth_error faces b); [discriminate | discriminate]. }
    destruct (nth_error vertices b) as [vs|] eqn:Hvs;
      [|apply nth_error_None in Hvs; lia].
    assert (Hvl : length vs = V).
    { apply nth_error_In in Hvs.
      exact (proj1 (Forall_forall _ _) Hrect vs Hvs). }
    destruct (nth_error vs (Z.to_nat i)) as [v'|] eqn:Hv';
      [|apply nth_error_None in Hv'; lia].
    exists vs, v'. split; [reflexivity|]. split; [exact Hv'|].
    rewrite Hget. f_equal.
    pose proof (nth_error_concat_rect _ _ Hrect Hvs Hv') as Hc.
    replace (Z.to_nat (i + Z.of_nat b * Z.of_nat V))
      with (b * V + Z.to_nat i)%nat in Hv by lia.
    congruence.
  - exfalso. destruct (proj1 Hfail eq_refl) as (b & f & c & i & Hi & Hbad).
    apply Hbad. pose proof (Hrange _ _ _ _ Hi) as Hr.
    assert (Hb : (b < length vertices)%nat).
    { rewrite <- Hlen. apply nth_error_Some. unfold get3 in Hi.
      destruct (nth_error faces b); [discriminate | discriminate]. }
    unfold B. nia.
Qed.

(** The claim C9 as it was stated fails: with B = 2 and V = 1 the index 1
    is out of bounds for its batch, and the gather returns the vertex of the
    other batch. *)
Lemma out_of_batch_index_accepted :
  vertices_to_faces [[V3 0 0 0]; [V3 1 1 1]]
    [[[1; 0; 0]]; [[0; 0; 0]]]%Z
  = Ok [[[V3 1 1 1; V3 0 0 0; V3 0 0 0]];
        [[V3 1 1 1; V3 1 1 1; V3 1 1 1]]].
Proof. reflexivity. Qed.

Lemma vertices_to_faces_gather_witness :
  Forall (fun vs => length vs = 3%nat) triangle_vertices
  /\ length triangle_faces = length triangle_vertices
  /\ (forall b f c i, get3 triangle_faces b f c = Some i -> (0 <= i < 3)%Z)
  /\ exists out, vertices_to_faces triangle_vertices triangle_faces = Ok out.
Proof.
  assert (H1 : Forall (fun vs => length vs = 3%nat) triangle_vertices)
    by (repeat constructor).
  assert (H2 : length triangle_faces = length triangle_vertices)
    by reflexivity.
  assert (H3 : forall b f c i,
             get3 triangle_faces b f c = Some i -> (0 <= i < 3)%Z).
  { intros b f c i. unfold get3, triangle_faces.
    destruct b as [|[|b]]; simpl; try discriminate.
    destruct f as [|[|f]]; simpl; try discriminate.
    destruct c as [|[|[|[|c]]]]; simpl; try discriminate;
      intros H; injection H as <-; lia. }
  repeat (split; [assumption|]).
  destruct (proj2 (vertices_to_faces_gather triangle_faces H1 H2) H3)
    as (out & Hout & _).
  exists out. exact Hout.
Defined.

(** ** Look-at *)

Lemma eps_pos : 0 < eps.
Proof. unfold eps. lra. Qed.

Lemma dot_self_nonneg (v : vec3) : 0 <= dot v v.
Proof. unfold dot. nra. Qed.

Lemma norm_nonneg (v : vec3) : 0 <= norm v.
Proof. apply sqrt_pos. Qed.

Lemma norm_sqr (v : vec3) : norm v * norm v = dot v v.
Proof. apply sqrt_sqrt, dot_self_nonneg. Qed.

Lemma dot_cross_left (a b : vec3) : dot (cross3 a b) a = 0.
Proof. unfold dot, cross3. simpl. ring. Qed.

Lemma dot_cross_right (a b : vec3) : dot (cross3 a b) b = 0.
Proof. unfold dot, cross3. simpl. ring. Qed.

Lemma dot_comm (a b : vec3) : dot a b = dot b a.
Proof. unfold dot. ring. Qed.

Lemma lagrange (a b : vec3) :
  dot (cross3 a b) (cross3 a b) = dot a a * dot b b - dot a b * dot a b.
Proof. unfold dot, cross3. simpl. ring. Qed.

(** Away from the epsilon clamp, [normalize] divides by the norm. *)
Lemma dot_normalize (v w : vec3) :
  eps <= norm v -> dot (normalize v) w = dot v w / norm v.
Proof.
  intros H. pose proof eps_pos.
  unfold normalize. rewrite Rmax_left by exact H.
  unfold dot. simpl. field. lra.
Qed.

Lemma normalize_unit (v : vec3) :
  eps <= norm v -> dot (normalize v) (normalize v) = 1.
Proof.
  intros H. pose proof eps_pos.
  rewrite (dot_normalize v _ H), dot_comm, (dot_normalize v _ H).
  rewrite <- norm_sqr. field. lra.
Qed.

Lemma norm_of_unit (v : vec3) : dot v v = 1 -> norm v = 1.
Proof. intros H. unfold norm. rewrite H. apply sqrt_1. Qed.

Lemma normalize_of_unit (v : vec3) : dot v v = 1 -> normalize v = v.
Proof.
  intros H. unfold normalize. rewrite (norm_of_unit H).
  rewrite Rmax_left by (unfold eps; lra).
  destruct v as [a b c]. simpl. f_equal; field.
Qed.

Lemma look_at_basis_orthonormal (eye at_ up : vec3) :
  eps <= norm (vsub at_ eye) ->
  eps <= norm (cross3 up (normalize (vsub at_ eye))) ->
  orthonormal (look_at_basis eye at_ up).
Proof.
  intros Hz Hx. unfold look_at_basis, orthonormal. simpl.
  set (z := normalize (vsub at_ eye)) in *.
  set (x := normalize (cross3 up z)).
  assert (Hzz : dot z z = 1) by (apply normalize_unit; exact Hz).
  assert (Hxx : dot x x = 1) by (apply normalize_unit; exact Hx).
  assert (Hxz : dot x z = 0).
  { unfold x. rewrite (dot_normalize _ _ Hx), dot_cross_right.
    unfold Rdiv. apply Rmult_0_l. }
  assert (Hc : dot (cross3 z x) (cross3 z x) = 1).
  { rewrite lagrange, Hzz, Hxx, (dot_comm z x), Hxz. ring. }
  rewrite (normalize_of_unit Hc).
  repeat split; try assumption.
  - rewrite dot_comm. apply dot_cross_right.
  - apply dot_cross_left.
Qed.

Lemma map2_repeat {A B C} (f : A -> B -> C) (a : A) (b : B) (n : nat) :
  map2 f (repeat a n) (repeat b n) = repeat (f a b) n.
Proof. induction n as [|n IH]; simpl; [reflexivity | now rewrite IH]. Qed.

Lemma map3_repeat {A B C D} (f : A -> B -> C -> D) a b c (n : nat) :
  map3 f (repeat a n) (repeat b n) (repeat c n) = repeat (f a b c) n.
Proof. induction n as [|n IH]; simpl; [reflexivity | now rewrite IH]. Qed.

Lemma map2_repeat_r {A B C} (f : A -> B -> C) (l : list A) (b : B) :
  map2 f l (repeat b (length l)) = map (fun x => f x b) l.
Proof. induction l as [|x l IH]; simpl; [reflexivity | now rewrite IH]. Qed.

Lemma get2_map {A B} (f : A -> B) (t : list (list A)) (b i : nat) :
  get2 (map (map f) t) b i = option_map f (get2 t b i).
Proof.
  unfold get2. rewrite nth_error_map.
  destruct (nth_error t b); simpl; [apply nth_error_map | reflexivity].
Qed.

Lemma vecmat_transpose (m : mat3) (v : vec3) :
  vecmat v (transpose m) = matvec m v.
Proof. unfold vecmat, matvec, transpose, dot. simpl. f_equal; ring. Qed.

(** Which dimension [torch.cross] picks on a batch of identical rows. *)
Lemma torch_cross_rows (a b : vec3) (n : nat) :
  n <> 3%nat ->
  torch_cross (repeat a n) (repeat b n) = repeat (cross3 a b) n.
Proof.
  intros Hn. rewrite <- map2_repeat.
  destruct n as [|[|[|[|n]]]]; try reflexivity. congruence.
Qed.

Lemma torch_cross_batch (a b : vec3) :
  torch_cross (repeat a 3) (repeat b 3) = repeat (V3 0 0 0) 3.
Proof.
  unfold torch_cross. simpl. repeat f_equal; ring.
Qed.

Lemma normalize_zero : normalize (V3 0 0 0) = V3 0 0 0.
Proof.
  unfold normalize. simpl. unfold Rdiv. rewrite Rmult_0_l. reflexivity.
Qed.

Lemma look_at_unfold (vertices : vertices_t) (eye at_ up : vec3) :
  look_at vertices eye at_ up
  = map (map (fun v => matvec (look_at_rotation (length vertices) eye at_ up)
                         (vsub v eye))) vertices.
Proof.
  unfold look_at, look_at_rotation.
  rewrite map2_repeat, map_repeat.
  assert (Hfin : forall m : mat3,
    map2 (fun vs m => map (fun v => vecmat v (transpose m)) vs)
      (map2 (fun vs e => map (fun v => vsub v e) vs) vertices
         (repeat eye (length vertices)))
      (repeat m (length vertices))
    = map (map (fun v => matvec m (vsub v eye))) vertices).
  { intros m. rewrite map2_repeat_r.
    rewrite <- (length_map (fun x => map (fun v => vsub v eye) x)) at 1.
    rewrite map2_repeat_r, map_map. apply map_ext. intros vs.
    rewrite map_map. apply map_ext. intros v. apply vecmat_transpose. }
  destruct (Nat.eqb_spec (length vertices) 3) as [E|E].
  - rewrite E. rewrite torch_cross_batch, map_repeat, normalize_zero.
    assert (Hy : forall z, torch_cross (repeat z 3) (repeat (V3 0 0 0) 3)
                           = repeat (V3 0 0 0) 3).
    { intros z. unfold torch_cross. simpl. repeat f_equal; ring. }
    rewrite Hy, map_repeat, normalize_zero, map3_repeat.
    rewrite <- E. apply Hfin.
  - rewrite (torch_cross_rows _ _ E), map_repeat.
    rewrite (torch_cross_rows _ _ E), map_repeat, map3_repeat.
    apply Hfin.
Qed.

Lemma normalize_axis_x (a b c : R) :
  eps <= a -> b = 0 -> c = 0 -> normalize (V3 a b c) = V3 1 0 0.
Proof.
  intros Ha -> ->. pose proof eps_pos.
  unfold normalize, norm, dot. simpl.
  replace (a * a + 0 * 0 + 0 * 0) with (a * a) by ring.
  rewrite sqrt_square by lra. rewrite Rmax_left by exact Ha.
  f_equal; field; lra.
Qed.

Lemma normalize_axis_y (a b c : R) :
  a = 0 -> eps <= b -> c = 0 -> normalize (V3 a b c) = V3 0 1 0.
Proof.
  intros -> Hb ->. pose proof eps_pos.
  unfold normalize, norm, dot. simpl.
  replace (0 * 0 + b * b + 0 * 0) with (b * b) by ring.
  rewrite sqrt_square by lra. rewrite Rmax_left by exact Hb.
  f_equal; field; lra.
Qed.

Lemma normalize_axis_z (a b c : R) :
  a = 0 -> b = 0 -> eps <= c -> normalize (V3 a b c) = V3 0 0 1.
Proof.
  intros -> -> Hc. pose proof eps_pos.
  unfold normalize, norm, dot. simpl.
  replace (0 * 0 + 0 * 0 + c * c) with (c * c) by ring.
  rewrite sqrt_square by lra. rewrite Rmax_left by exact Hc.
  f_equal; field; lra.
Qed.

(** Below the epsilon the division is by the epsilon, not by the norm. *)
Lemma normalize_axis_z_clamped (a b c : R) :
  a = 0 -> b = 0 -> 0 <= c <= eps ->
  normalize (V3 a b c) = V3 0 0 (c / eps).
Proof.
  intros -> -> Hc. pose proof eps_pos.
  unfold normalize, norm, dot. simpl.
  replace (0 * 0 + 0 * 0 + c * c) with (c * c) by ring.
  rewrite sqrt_square by lra. rewrite Rmax_right by lra.
  f_equal; field; lra.
Qed.

(** The basis for the camera on the negative z axis at distance d. *)
Lemma look_at_basis_on_axis (d : R) :
  eps <= d ->
  look_at_basis (V3 0 0 (- d)) (V3 0 0 0) (V3 0 1 0)
  = M3 (V3 1 0 0) (V3 0 1 0) (V3 0 0 1).
Proof.
  intros Hd. pose proof eps_pos. unfold look_at_basis.
  assert (Hz : normalize (vsub (V3 0 0 0) (V3 0 0 (- d))) = V3 0 0 1).
  { unfold vsub. simpl. apply normalize_axis_z; lra. }
  rewrite Hz.
  assert (Hx : normalize (cross3 (V3 0 1 0) (V3 0 0 1)) = V3 1 0 0).
  { unfold cross3. simpl. apply normalize_axis_x; unfold eps; lra. }
  rewrite Hx.
  assert (Hy : normalize (cross3 (V3 0 0 1) (V3 1 0 0)) = V3 0 1 0).
  { unfold cross3. simpl. apply normalize_axis_y; unfold eps; lra. }
  rewrite Hy. reflexivity.
Qed.

(** C6 (amended): for a vertex batch whose size is not 3, [look_at] maps
    every vertex v to R . (v - eye), where R has the rows (x, y, z) with
    z = normalize(at - eye), x = normalize(up x z), y = normalize(z x x) and
    normalize(w) = w / max(|w|, 1e-5); this basis is orthonormal when
    |at - eye| >= 1e-5 and |up x z| >= 1e-5; and for every batch size, with
    eye = (0, 0, -d), d >= 1e-5, at = (0, 0, 0) and up = (0, 1, 0), a vertex
    at the origin maps to (0, 0, d). *)
Theorem look_at_transform :
  (forall vertices eye at_ up,
     length vertices <> 3%nat ->
     look_at vertices eye at_ up = spec_look_at vertices eye at_ up)
  /\ (forall eye at_ up,
        eps <= norm (vsub at_ eye) ->
        eps <= norm (cross3 up (normalize (vsub at_ eye))) ->
        orthonormal (look_at_basis eye at_ up))
  /\ (forall vertices d b i,
        eps <= d ->
        get2 vertices b i = Some (V3 0 0 0) ->
        get2 (look_at vertices (V3 0 0 (- d)) (V3 0 0 0) (V3 0 1 0)) b i
        = Some (V3 0 0 d)).
Proof.
  split; [|split].
  - intros vertices eye at_ up Hn. rewrite look_at_unfold.
    unfold look_at_rotation, spec_look_at.
    destruct (Nat.eqb_spec (length vertices) 3); [contradiction|reflexivity].
  - exact look_at_basis_orthonormal.
  - intros vertices d b i Hd Hv. pose proof eps_pos.
    rewrite look_at_unfold, get2_map, Hv. simpl. f_equal.
    unfold look_at_rotation.
    destruct (Nat.eqb (length vertices) 3).
    + assert (Hz : normalize (vsub (V3 0 0 0) (V3 0 0 (- d))) = V3 0 0 1).
      { unfold vsub. simpl. apply normalize_axis_z; lra. }
      rewrite Hz. unfold matvec, dot, vsub. simpl. f_equal; ring.
    + rewrite (look_at_basis_on_axis Hd).
      unfold matvec, dot, vsub. simpl. f_equal; ring.
Qed.

(** The claim C6 as it was stated fails: with eye = (0, 0, -1e-6),
    at = (0, 0, 0) and up = (0, 1, 0) (at <> eye, up not parallel to
    at - eye) the vertex at the origin maps to (0, 0, 1e-7), not to
    (0, 0, 1e-6), and the row z of the rotation has squared length 1/100. *)
Lemma look_at_below_epsilon :
  look_at [[V3 0 0 0]] (V3 0 0 (- (1 / 1000000))) (V3 0 0 0) (V3 0 1 0)
  = [[V3 0 0 (1 / 10000000)]]
  /\ V3 0 0 (1 / 10000000) <> V3 0 0 (1 / 1000000)
  /\ ~ orthonormal
         (look_at_basis (V3 0 0 (- (1 / 1000000))) (V3 0 0 0) (V3 0 1 0)).
Proof.
  assert (Hz : normalize (vsub (V3 0 0 0) (V3 0 0 (- (1 / 1000000))))
               = V3 0 0 (1 / 10)).
  { unfold vsub. simpl.
    rewrite normalize_axis_z_clamped by (unfold eps; lra).
    f_equal. unfold eps. field. }
  assert (Hx : normalize (cross3 (V3 0 1 0) (V3 0 0 (1 / 10))) = V3 1 0 0).
  { unfold cross3. simpl. apply normalize_axis_x; unfold eps; lra. }
  assert (Hy : normalize (cross3 (V3 0 0 (1 / 10)) (V3 1 0 0)) = V3 0 1 0).
  { unfold cross3. simpl. apply normalize_axis_y; unfold eps; lra. }
  assert (Hb : look_at_basis (V3 0 0 (- (1 / 1000000))) (V3 0 0 0) (V3 0 1 0)
               = M3 (V3 1 0 0) (V3 0 1 0) (V3 0 0 (1 / 10))).
  { unfold look_at_basis. rewrite Hz, Hx, Hy. reflexivity. }
  split; [|split].
  - rewrite look_at_unfold. simpl. unfold look_at_rotation. simpl.
    rewrite Hb. unfold matvec, dot, vsub. simpl. do 2 f_equal.
    f_equal; field.
  - intros H. injection H as H. lra.
  - rewrite Hb. unfold orthonormal, dot. simpl. intros (_ & _ & H & _). lra.
Qed.

Lemma look_at_transform_witness :
  length triangle_vertices <> 3%nat
  /\ eps <= norm (vsub (V3 0 0 0) (V3 0 0 (- 1)))
  /\ eps <= norm (cross3 (V3 0 1 0)
                    (normalize (vsub (V3 0 0 0) (V3 0 0 (- 1)))))
  /\ eps <= 1
  /\ get2 triangle_vertices 0 0 = Some (V3 0 0 0)
  /\ look_at triangle_vertices (V3 0 0 (- 1)) (V3 0 0 0) (V3 0 1 0)
     = spec_look_at triangle_vertices (V3 0 0 (- 1)) (V3 0 0 0) (V3 0 1 0)
  /\ orthonormal (look_at_basis (V3 0 0 (- 1)) (V3 0 0 0) (V3 0 1 0))
  /\ get2 (look_at triangle_vertices (V3 0 0 (- 1)) (V3 0 0 0) (V3 0 1 0))
       0 0 = Some (V3 0 0 1).
Proof.
  assert (H1 : length triangle_vertices <> 3%nat) by discriminate.
  assert (Hz : normalize (vsub (V3 0 0 0) (V3 0 0 (- 1))) = V3 0 0 1).
  { unfold vsub. simpl. apply normalize_axis_z; unfold eps; lra. }
  assert (H2 : eps <= norm (vsub (V3 0 0 0) (V3 0 0 (- 1)))).
  { unfold vsub, norm, dot. simpl.
    replace ((0 - 0) * (0 - 0) + (0 - 0) * (0 - 0) + (0 - - 1) * (0 - - 1))
      with 1 by ring.
    rewrite sqrt_1. unfold eps. lra. }
  assert (H3 : eps <= norm (cross3 (V3 0 1 0)
                              (normalize (vsub (V3 0 0 0) (V3 0 0 (- 1)))))).
  { rewrite Hz. unfold cross3, norm, dot. simpl.
    replace ((1 * 1 - 0 * 0) * (1 * 1 - 0 * 0)
             + (0 * 0 - 0 * 1) * (0 * 0 - 0 * 1)
             + (0 * 0 - 1 * 0) * (0 * 0 - 1 * 0)) with 1 by ring.
    rewrite sqrt_1. unfold eps. lra. }
  assert (H4 : eps <= 1) by (unfold eps; lra).
  assert (H5 : get2 triangle_vertices 0 0 = Some (V3 0 0 0)) by reflexivity.
  repeat (split; [assumption|]).
  destruct look_at_transform as (HA & HB & HC).
  split; [exact (HA _ _ _ _ H1)|].
  split; [exact (HB _ _ _ H2 H3)|].
  exact (HC triangle_vertices 1 0%nat 0%nat H4 H5).
Defined.

(** ** Broadcasting *)

Lemma length_map2 {A B C} (f : A -> B -> C) (x : list A) (y : list B) :
  length (map2 f x y) = Nat.min (length x) (length y).
Proof.
  revert y. induction x as [|a x IH]; intros [|b y]; simpl; auto.
Qed.

Lemma firstn_map2 {A B C} (f : A -> B -> C) (n : nat) (x : list A)
  (y : list B) :
  firstn n (map2 f x y) = map2 f (firstn n x) (firstn n y).
Proof.
  revert x y. induction n as [|n IH]; intros [|a x] [|b y]; simpl;
    try reflexivity.
  now rewrite IH.
Qed.

Lemma skipn_map2 {A B C} (f : A -> B -> C) (n : nat) (x : list A)
  (y : list B) :
  skipn n (map2 f x y) = map2 f (skipn n x) (skipn n y).
Proof.
  revert x y. induction n as [|n IH]; intros [|a x] [|b y]; simpl;
    try reflexivity.
  - now destruct (skipn n x).
  - apply IH.
Qed.

Lemma map2_app {A B C} (f : A -> B -> C) (x x' : list A) (y y' : list B) :
  length x = length y ->
  map2 f (x ++ x') (y ++ y') = map2 f x y ++ map2 f x' y'.
Proof.
  revert y. induction x as [|a x IH]; intros [|b y] H; simpl in *;
    try discriminate; [reflexivity|].
  f_equal. apply IH. lia.
Qed.

Lemma map2_concat {A B C} (f : A -> B -> C) (xs : list (list A))
  (ys : list (list B)) :
  Forall2 (fun a b => length a = length b) xs ys ->
  map2 f (concat xs) (concat ys) = concat (map2 (map2 f) xs ys).
Proof.
  induction 1 as [|a b xs ys Hab _ IH]; simpl; [reflexivity|].
  rewrite map2_app by exact Hab. now rewrite IH.
Qed.

Lemma map2_ext_in {A B C} (f g : A -> B -> C) (x : list A) (y : list B) :
  (forall a b, In a x -> In b y -> f a b = g a b) ->
  map2 f x y = map2 g x y.
Proof.
  revert y. induction x as [|a x IH]; intros [|b y] H; simpl;
    try reflexivity.
  f_equal; [apply H; left; reflexivity|].
  apply IH. intros a' b' Ha Hb. apply H; right; assumption.
Qed.

Lemma map_map2 {A B C D} (g : C -> D) (f : A -> B -> C) (x : list A)
  (y : list B) :
  map g (map2 f x y) = map2 (fun a b => g (f a b)) x y.
Proof.
  revert y. induction x as [|a x IH]; intros [|b y]; simpl;
    try reflexivity.
  now rewrite IH.
Qed.

Lemma map2_map_map {A A' B B' C} (f : A' -> B' -> C) (g : A -> A')
  (h : B -> B') (x : list A) (y : list B) :
  map2 f (map g x) (map h y) = map2 (fun a b => f (g a) (h b)) x y.
Proof.
  revert y. induction x as [|a x IH]; intros [|b y]; simpl;
    try reflexivity.
  now rewrite IH.
Qed.

Lemma length_chunks {A} (sz n : nat) (l : list A) :
  length (chunks sz n l) = n.
Proof.
  revert l. induction n as [|n IH]; intros l; simpl; [reflexivity|].
  now rewrite IH.
Qed.

Lemma chunks_lengths {A} (sz n : nat) (l : list A) :
  (n * sz <= length l)%nat ->
  Forall (fun c => length c = sz) (chunks sz n l).
Proof.
  revert l. induction n as [|n IH]; intros l H; simpl; constructor.
  - rewrite length_firstn. simpl in H. lia.
  - apply IH. rewrite length_skipn. simpl in H. lia.
Qed.

Lemma concat_chunks {A} (sz n : nat) (l : list A) :
  length l = (n * sz)%nat -> concat (chunks sz n l) = l.
Proof.
  revert l. induction n as [|n IH]; intros l H; simpl.
  - destruct l; [reflexivity | discriminate].
  - rewrite IH; [apply firstn_skipn|].
    rewrite length_skipn. simpl in H. lia.
Qed.

Lemma firstn_app_exact {A} (c r : list A) : firstn (length c) (c ++ r) = c.
Proof. induction c as [|a c IH]; simpl; [reflexivity | now rewrite IH]. Qed.

Lemma skipn_app_exact {A} (c r : list A) : skipn (length c) (c ++ r) = r.
Proof. induction c as [|a c IH]; simpl; [reflexivity | exact IH]. Qed.

Lemma chunks_concat {A} (sz : nat) (ls : list (list A)) :
  Forall (fun c => length c = sz) ls ->
  chunks sz (length ls) (concat ls) = ls.
Proof.
  induction 1 as [|c ls Hc _ IH]; simpl; [reflexivity|].
  subst sz. rewrite firstn_app_exact, skipn_app_exact. now rewrite IH.
Qed.

Lemma chunks_map2 {A B C} (f : A -> B -> C) (sz n : nat) (x : list A)
  (y : list B) :
  chunks sz n (map2 f x y)
  = map2 (map2 f) (chunks sz n x) (chunks sz n y).
Proof.
  revert x y. induction n as [|n IH]; intros x y; simpl; [reflexivity|].
  now rewrite firstn_map2, skipn_map2, IH.
Qed.

Lemma Forall_repeat {A} (P : A -> Prop) (a : A) (n : nat) :
  P a -> Forall P (repeat a n).
Proof. intros H. induction n; simpl; constructor; assumption. Qed.

Lemma numel_cons (d : nat) (s : list nat) :
  numel (d :: s) = (d * numel s)%nat.
Proof. reflexivity. Qed.

Lemma length_expand {A} (s T : list nat) (l : list A) :
  expands s T -> length l = numel s -> length (expand s T l) = numel T.
Proof.
  intros H. revert l. induction H as [|d D s T Hd _ IH]; intros l Hl.
  - exact Hl.
  - rewrite numel_cons in *. simpl.
    destruct (Nat.eqb_spec d D) as [E|E].
    + subst D.
      rewrite (@length_concat_rect _ _ (numel T)).
      * now rewrite length_map, length_chunks.
      * rewrite Forall_map.
        eapply Forall_impl; [|apply chunks_lengths; lia].
        intros c Hc. apply IH. exact Hc.
    + destruct Hd as [Hd|Hd]; [contradiction | subst d].
      rewrite (@length_concat_rect _ _ (numel T)).
      * now rewrite repeat_length.
      * apply Forall_repeat. apply IH. lia.
Qed.

Lemma expand_id {A} (T : list nat) (l : list A) :
  length l = numel T -> expand T T l = l.
Proof.
  revert l. induction T as [|D T IH]; intros l Hl; [reflexivity|].
  rewrite numel_cons in Hl. simpl. rewrite Nat.eqb_refl.
  rewrite <- (concat_chunks (numel T) D l) at 2 by exact Hl.
  f_equal. rewrite <- (map_id (chunks (numel T) D l)) at 2.
  apply map_ext_in. intros c Hc. apply IH.
  pose proof (chunks_lengths (numel T) D l) as HF.
  rewrite Forall_forall in HF. apply HF; [lia | exact Hc].
Qed.

Lemma expand_map2 {A} (f : A -> A -> A) (s T : list nat) (x y : list A) :
  expands s T -> length x = numel s -> length y = numel s ->
  expand s T (map2 f x y) = map2 f (expand s T x) (expand s T y).
Proof.
  intros H. revert x y. induction H as [|d D s T Hd Hs IH]; intros x y Hx Hy.
  - reflexivity.
  - rewrite numel_cons in *. simpl.
    pose proof (chunks_lengths (numel s) d x) as Fx.
    pose proof (chunks_lengths (numel s) d y) as Fy.
    rewrite Forall_forall in Fx, Fy.
    destruct (Nat.eqb_spec d D) as [E|E].
    + rewrite chunks_map2, map2_concat.
      * f_equal. rewrite map2_map_map, map_map2.
        apply map2_ext_in. intros a b Ha Hb.
        apply IH; [apply Fx | apply Fy]; auto; lia.
      * assert (Hlen : length (chunks (numel s) d x)
                       = length (chunks (numel s) d y))
          by now rewrite !length_chunks.
        revert Fx Fy Hlen.
        generalize (chunks (numel s) d x) (chunks (numel s) d y).
        induction l as [|a l IHl]; intros [|b l'] Fx Fy Hlen;
          simpl in *; try discriminate; constructor.
        -- rewrite !(length_expand _ Hs); auto; [apply Fy | apply Fx];
             auto; lia.
        -- apply IHl; auto.
    + destruct Hd as [Hd|Hd]; [contradiction | subst d].
      rewrite (IH x y) by lia.
      assert (Hl : length (expand s T x) = length (expand s T y)).
      { rewrite !(length_expand _ Hs); auto; lia. }
      clear -Hl. induction D as [|D IHD]; simpl; [reflexivity|].
      rewrite map2_app by exact Hl. now rewrite IHD.
Qed.

Lemma expand_trans {A} (s T1 T : list nat) (x : list A) :
  expands s T1 -> expands T1 T -> length x = numel s ->
  expand T1 T (expand s T1 x) = expand s T x.
Proof.
  intros H1. revert T x.
  induction H1 as [|d D1 s T1 Hd Hs IH]; intros T x H2 Hx;
    inversion H2 as [|? D ? T' HD HT]; subst; [reflexivity|].
  rewrite numel_cons in Hx.
  pose proof (chunks_lengths (numel s) d x) as Fx.
  rewrite Forall_forall in Fx.
  cbn [expand].
  destruct (Nat.eqb_spec d D1) as [E1|E1];
    destruct (Nat.eqb_spec D1 D) as [E2|E2];
    destruct (Nat.eqb_spec d D) as [E3|E3];
    try (exfalso; lia).
  - (* d = D1 = D *)
    subst D1 D.
    assert (Hc : chunks (numel T1) d
                   (concat (map (expand s T1) (chunks (numel s) d x)))
                 = map (expand s T1) (chunks (numel s) d x)).
    { rewrite <- (length_chunks (numel s) d x) at 1.
      rewrite <- (length_map (expand s T1)).
      apply chunks_concat. rewrite Forall_map, Forall_forall.
      intros c Hc. apply (length_expand _ Hs). apply Fx; [lia | exact Hc]. }
    rewrite Hc, map_map. f_equal. apply map_ext_in.
    intros c Hin. apply IH; [exact HT|]. apply Fx; [lia | exact Hin].
  - (* d = D1 = 1, D arbitrary *)
    subst D1. destruct HD as [HD|HD]; [contradiction | subst d].
    simpl. rewrite app_nil_r.
    rewrite firstn_all2 by lia. now rewrite IH by (auto; lia).
  - (* d = 1, D1 = D *)
    subst D1. destruct Hd as [Hd|Hd]; [contradiction | subst d].
    assert (He : length (expand s T1 x) = numel T1).
    { apply length_expand; [exact Hs | lia]. }
    assert (Hc : chunks (numel T1) D (concat (repeat (expand s T1 x) D))
                 = repeat (expand s T1 x) D).
    { rewrite <- (repeat_length (expand s T1 x) D) at 1.
      apply chunks_concat. apply Forall_repeat. exact He. }
    rewrite Hc, map_repeat. now rewrite IH by (auto; lia).
Qed.

Lemma numel_ones (k : nat) (s : list nat) :
  numel (repeat 1%nat k ++ s) = numel s.
Proof.
  induction k as [|k IH]; simpl; [reflexivity|].
  fold (numel (repeat 1%nat k ++ s)). lia.
Qed.

Lemma expand_ones {A} (k : nat) (s T : list nat) (x : list A) :
  length x = numel s ->
  expand (repeat 1%nat k ++ s) (repeat 1%nat k ++ T) x = expand s T x.
Proof.
  intros Hx. induction k as [|k IH]; [reflexivity|].
  cbn [repeat app expand]. rewrite Nat.eqb_refl. cbn [chunks map concat].
  rewrite app_nil_r, numel_ones, firstn_all2 by lia. exact IH.
Qed.

Lemma length_pad (n : nat) (s : list nat) :
  (length s <= n)%nat -> length (pad n s) = n.
Proof.
  intros H. unfold pad. rewrite length_app, repeat_length. lia.
Qed.

Lemma numel_pad (n : nat) (s : list nat) : numel (pad n s) = numel s.
Proof. apply numel_ones. Qed.

Lemma pad_full (n : nat) (s : list nat) : (n <= length s)%nat -> pad n s = s.
Proof.
  intros H. unfold pad. replace (n - length s)%nat with 0%nat by lia.
  reflexivity.
Qed.

Lemma pad_split (n N : nat) (s : list nat) :
  (length s <= n)%nat -> (n <= N)%nat ->
  pad N s = repeat 1%nat (N - n) ++ pad n s.
Proof.
  intros H1 H2. unfold pad. rewrite app_assoc, <- repeat_app.
  do 2 f_equal. lia.
Qed.

Lemma bshape_aligned_ones (k : nat) (x y : list nat) :
  bshape_aligned (repeat 1%nat k ++ x) (repeat 1%nat k ++ y)
  = option_map (app (repeat 1%nat k)) (bshape_aligned x y).
Proof.
  induction k as [|k IH]; simpl.
  - destruct (bshape_aligned x y); reflexivity.
  - rewrite IH. destruct (bshape_aligned x y); reflexivity.
Qed.

Lemma bdim_expands (m n D : nat) :
  bdim m n = Some D -> (m = D \/ m = 1%nat) /\ (n = D \/ n = 1%nat).
Proof.
  unfold bdim.
  destruct (Nat.eqb_spec m n); [intros H; injection H as <-; auto|].
  destruct (Nat.eqb_spec m 1); [intros H; injection H as <-; auto|].
  destruct (Nat.eqb_spec n 1); [intros H; injection H as <-; auto|].
  discriminate.
Qed.

Lemma bshape_aligned_expands (x y T : list nat) :
  bshape_aligned x y = Some T ->
  expands x T /\ expands y T /\ length T = length x /\ length y = length x.
Proof.
  revert y T. induction x as [|m x IH]; intros [|n y] T H; simpl in H;
    try discriminate.
  - injection H as <-. repeat split; constructor.
  - destruct (bdim m n) as [D|] eqn:HD; [|discriminate].
    destruct (bshape_aligned x y) as [T'|] eqn:HT; [|discriminate].
    injection H as <-.
    destruct (bdim_expands _ _ HD) as [H1 H2].
    destruct (IH _ _ HT) as (E1 & E2 & L1 & L2).
    repeat split; try (constructor; assumption); simpl; congruence.
Qed.

(** One dimension of [(a + d) * t] against [a * t + d * t]. *)
Lemma bdim_distr (a d t : nat) :
  match bdim a t, bdim d t with
  | Some x, Some y => bdim x y
  | _, _ => None
  end
  = match bdim a d with
    | Some s => bdim s t
    | None => None
    end.
Proof.
  unfold bdim.
  destruct (Nat.eqb_spec a t); destruct (Nat.eqb_spec d t);
    destruct (Nat.eqb_spec a d); destruct (Nat.eqb_spec a 1);
    destruct (Nat.eqb_spec d 1); destruct (Nat.eqb_spec t 1);
    subst; try (exfalso; lia); try reflexivity;
    repeat match goal with
           | |- context [Nat.eqb ?x ?y] => destruct (Nat.eqb_spec x y)
           end; subst; try (exfalso; lia); try reflexivity.
Qed.

Lemma bshape_aligned_distr (a d t : list nat) :
  length a = length t -> length d = length t ->
  match bshape_aligned a t, bshape_aligned d t with
  | Some x, Some y => bshape_aligned x y
  | _, _ => None
  end
  = match bshape_aligned a d with
    | Some s => bshape_aligned s t
    | None => None
    end.
Proof.
  revert d t. induction a as [|m a IH]; intros [|n d] [|k t] Ha Hd;
    simpl in *; try discriminate; [reflexivity|].
  injection Ha as Ha. injection Hd as Hd.
  pose proof (bdim_distr m n k) as Hdim.
  pose proof (IH d t Ha Hd) as Hrest.
  destruct (bdim m k) as [x|]; destruct (bdim n k) as [y|];
    destruct (bdim m n) as [s|];
    destruct (bshape_aligned a t) as [X|];
    destruct (bshape_aligned d t) as [Y|];
    destruct (bshape_aligned a d) as [S|];
    simpl in *; try rewrite Hdim; try rewrite Hrest;
    try rewrite <- Hdim; try rewrite <- Hrest; try reflexivity;
    repeat match goal with
           | |- context [match ?e with _ => _ end] => destruct e
           end; congruence.
Qed.

Lemma expand_map2_trans {A} (f : A -> A -> A) (s1 s2 T1 T : list nat)
  (x y : list A) :
  expands s1 T1 -> expands s2 T1 -> expands T1 T ->
  length x = numel s1 -> length y = numel s2 ->
  expand T1 T (map2 f (expand s1 T1 x) (expand s2 T1 y))
  = map2 f (expand s1 T x) (expand s2 T y).
Proof.
  intros E1 E2 E Hx Hy.
  rewrite expand_map2; try exact E; try (apply length_expand; assumption).
  rewrite !expand_trans by assumption. reflexivity.
Qed.

(** [binop] on shapes padded to any common rank [N]. *)
Lemma binop_ok_lift {A} (N : nat) (f : A -> A -> A) (x y r : tensor A) :
  (length (shape x) <= N)%nat -> (length (shape y) <= N)%nat ->
  wf x -> wf y -> binop f x y = Ok r ->
  bshape_aligned (pad N (shape x)) (pad N (shape y))
  = Some (pad N (shape r))
  /\ length (shape r) = Nat.max (length (shape x)) (length (shape y))
  /\ data r = map2 f (expand (pad N (shape x)) (pad N (shape r)) (data x))
                     (expand (pad N (shape y)) (pad N (shape r)) (data y))
  /\ wf r.
Proof.
  intros Lx Ly Wx Wy H. unfold binop, broadcast_shape in H.
  set (n := Nat.max (length (shape x)) (length (shape y))) in *.
  destruct (bshape_aligned (pad n (shape x)) (pad n (shape y)))
    as [T|] eqn:HT; [|discriminate].
  injection H as <-. cbn [shape data].
  destruct (bshape_aligned_expands _ _ HT) as (Ex & Ey & LT & _).
  rewrite length_pad in LT by lia.
  assert (HpT : pad N T = repeat 1%nat (N - n) ++ T).
  { unfold pad. now rewrite LT. }
  assert (Hpx := @pad_split n N (shape x)).
  assert (Hpy := @pad_split n N (shape y)).
  rewrite Hpx, Hpy, HpT by lia.
  split; [rewrite bshape_aligned_ones, HT; reflexivity|].
  split; [exact LT|].
  rewrite !expand_ones by (rewrite numel_pad; assumption).
  rewrite LT. split; [reflexivity|].
  unfold wf. cbn [shape data].
  rewrite length_map2, !(@length_expand _ _ T)
    by (try assumption; rewrite numel_pad; assumption).
  apply Nat.min_id.
Qed.

Lemma binop_err_lift {A} (N : nat) (f : A -> A -> A) (x y : tensor A)
  (e : exn) :
  (length (shape x) <= N)%nat -> (length (shape y) <= N)%nat ->
  binop f x y = Err e ->
  e = RuntimeError
  /\ bshape_aligned (pad N (shape x)) (pad N (shape y)) = None.
Proof.
  intros Lx Ly H. unfold binop, broadcast_shape in H.
  set (n := Nat.max (length (shape x)) (length (shape y))) in *.
  destruct (bshape_aligned (pad n (shape x)) (pad n (shape y)))
    as [T|] eqn:HT; [discriminate|].
  injection H as <-. split; [reflexivity|].
  rewrite (@pad_split n N (shape x)), (@pad_split n N (shape y)) by lia.
  now rewrite bshape_aligned_ones, HT.
Qed.

Lemma map2_distr (a d t : list R) :
  map2 Rplus (map2 Rmult a t) (map2 Rmult d t)
  = map2 Rmult (map2 Rplus a d) t.
Proof.
  revert d t. induction a as [|x a IH]; intros [|y d] [|z t]; simpl;
    try reflexivity.
  rewrite IH. f_equal. ring.
Qed.

Lemma pad_inj (N : nat) (s s' : list nat) :
  length s = length s' -> pad N s = pad N s' -> s = s'.
Proof.
  unfold pad. intros L H. rewrite L in H.
  exact (app_inv_head _ _ _ H).
Qed.

(** Over exact arithmetic [a * t + d * t] and [(a + d) * t] are the same
    computation: they fail together and return the same tensor. *)
Lemma broadcast_distr (a d t : tensor R) :
  wf a -> wf d -> wf t ->
  (m1 <- tmul a t ;; m2 <- tmul d t ;; tadd m1 m2)
  = (s <- tadd a d ;; tmul s t).
Proof.
  intros Wa Wd Wt. unfold tmul, tadd.
  set (N := Nat.max (Nat.max (length (shape a)) (length (shape d)))
              (length (shape t))).
  assert (La : (length (shape a) <= N)%nat) by lia.
  assert (Ld : (length (shape d) <= N)%nat) by lia.
  assert (Lt : (length (shape t) <= N)%nat) by lia.
  assert (Hdist := @bshape_aligned_distr (pad N (shape a)) (pad N (shape d))
                     (pad N (shape t))).
  rewrite !length_pad in Hdist by assumption.
  specialize (Hdist eq_refl eq_refl).
  destruct (binop Rmult a t) as [m1|e1] eqn:H1; cbn [bind].
  - destruct (@binop_ok_lift _ N Rmult _ _ _ La Lt Wa Wt H1) as (S1 & R1 & D1 & W1).
    destruct (bshape_aligned_expands _ _ S1) as (Ea1 & Et1 & _).
    rewrite S1 in Hdist.
    destruct (binop Rmult d t) as [m2|e2] eqn:H2; cbn [bind].
    + destruct (@binop_ok_lift _ N Rmult _ _ _ Ld Lt Wd Wt H2) as (S2 & R2 & D2 & W2).
      destruct (bshape_aligned_expands _ _ S2) as (Ed2 & Et2 & _).
      rewrite S2 in Hdist.
      assert (L1 : (length (shape m1) <= N)%nat) by lia.
      assert (L2 : (length (shape m2) <= N)%nat) by lia.
      destruct (binop Rplus a d) as [s|e3] eqn:H3; cbn [bind].
      * destruct (@binop_ok_lift _ N Rplus _ _ _ La Ld Wa Wd H3)
          as (S3 & R3 & D3 & W3).
        destruct (bshape_aligned_expands _ _ S3) as (Ea3 & Ed3 & _).
        rewrite S3 in Hdist.
        assert (L3 : (length (shape s) <= N)%nat) by lia.
        destruct (binop Rplus m1 m2) as [r1|e4] eqn:H4;
          destruct (binop Rmult s t) as [r2|e5] eqn:H5.
        -- destruct (@binop_ok_lift _ N Rplus _ _ _ L1 L2 W1 W2 H4)
             as (S4 & R4 & D4 & W4).
           destruct (@binop_ok_lift _ N Rmult _ _ _ L3 Lt W3 Wt H5)
             as (S5 & R5 & D5 & W5).
           destruct (bshape_aligned_expands _ _ S4) as (E14 & E24 & _).
           destruct (bshape_aligned_expands _ _ S5) as (E35 & Et5 & _).
           rewrite S4, S5 in Hdist. injection Hdist as Hshape.
           assert (Hs : shape r1 = shape r2).
           { apply (@pad_inj N); [lia | exact Hshape]. }
           f_equal. destruct r1 as [s1 d1], r2 as [s2 d2].
           cbn [shape data] in *. subst s2. f_equal.
           rewrite D4, D5, D1, D2, D3.
           rewrite !expand_map2_trans
             by (try assumption; rewrite numel_pad; assumption).
           apply map2_distr.
        -- destruct (@binop_ok_lift _ N Rplus _ _ _ L1 L2 W1 W2 H4) as (S4 & _).
           destruct (@binop_err_lift _ N Rmult _ _ _ L3 Lt H5) as (_ & S5).
           rewrite S4, S5 in Hdist. discriminate.
        -- destruct (@binop_err_lift _ N Rplus _ _ _ L1 L2 H4) as (_ & S4).
           destruct (@binop_ok_lift _ N Rmult _ _ _ L3 Lt W3 Wt H5) as (S5 & _).
           rewrite S4, S5 in Hdist. discriminate.
        -- destruct (@binop_err_lift _ N Rplus _ _ _ L1 L2 H4) as (-> & _).
           destruct (@binop_err_lift _ N Rmult _ _ _ L3 Lt H5) as (-> & _).
           reflexivity.
      * destruct (@binop_err_lift _ N Rplus _ _ _ La Ld H3) as (-> & S3).
        rewrite S3 in Hdist.
        destruct (binop Rplus m1 m2) as [r1|e4] eqn:H4.
        -- destruct (@binop_ok_lift _ N Rplus _ _ _ L1 L2 W1 W2 H4) as (S4 & _).
           rewrite S4 in Hdist. discriminate.
        -- destruct (@binop_err_lift _ N Rplus _ _ _ L1 L2 H4) as (-> & _).
           reflexivity.
    + destruct (@binop_err_lift _ N Rmult _ _ _ Ld Lt H2) as (-> & S2).
      rewrite S2 in Hdist.
      destruct (binop Rplus a d) as [s|e3] eqn:H3; cbn [bind].
      * destruct (@binop_ok_lift _ N Rplus _ _ _ La Ld Wa Wd H3)
          as (S3 & R3 & D3 & W3).
        rewrite S3 in Hdist.
        assert (L3 : (length (shape s) <= N)%nat) by lia.
        destruct (binop Rmult s t) as [r2|e5] eqn:H5.
        -- destruct (@binop_ok_lift _ N Rmult _ _ _ L3 Lt W3 Wt H5) as (S5 & _).
           rewrite S5 in Hdist. discriminate.
        -- destruct (@binop_err_lift _ N Rmult _ _ _ L3 Lt H5) as (-> & _).
           reflexivity.
      * destruct (@binop_err_lift _ N Rplus _ _ _ La Ld H3) as (-> & _).
        reflexivity.
  - destruct (@binop_err_lift _ N Rmult _ _ _ La Lt H1) as (-> & S1).
    rewrite S1 in Hdist.
    destruct (binop Rplus a d) as [s|e3] eqn:H3; cbn [bind].
    + destruct (@binop_ok_lift _ N Rplus _ _ _ La Ld Wa Wd H3) as (S3 & R3 & D3 & W3).
      rewrite S3 in Hdist.
      assert (L3 : (length (shape s) <= N)%nat) by lia.
      destruct (binop Rmult s t) as [r2|e5] eqn:H5.
      * destruct (@binop_ok_lift _ N Rmult _ _ _ L3 Lt W3 Wt H5) as (S5 & _).
        rewrite S5 in Hdist. discriminate.
      * destruct (@binop_err_lift _ N Rmult _ _ _ L3 Lt H5) as (-> & _).
        reflexivity.
    + destruct (@binop_err_lift _ N Rplus _ _ _ La Ld H3) as (-> & _). reflexivity.
Qed.

(** ** Lighting *)

Lemma squeeze_shape_numel (k : nat) (s s' : list nat) :
  squeeze_shape k s = Ok s' -> numel s' = numel s.
Proof.
  revert s s'. induction k as [|k IH]; intros [|d r] s' H; simpl in H;
    try discriminate.
  - injection H as <-. destruct (Nat.eqb_spec d 1); [|reflexivity].
    subst d. rewrite numel_cons. lia.
  - bind_inv H. injection H as <-. rewrite !numel_cons.
    now rewrite (IH _ _ Ha).
Qed.

Lemma squeeze_wf {A} (k : nat) (t t' : tensor A) :
  squeeze k t = Ok t' -> wf t -> wf t'.
Proof.
  unfold squeeze, wf. intros H W. bind_inv H. injection H as <-.
  cbn [shape data]. now rewrite (squeeze_shape_numel _ _ Ha).
Qed.

Lemma nth_error_ext {A} (h ext : list A) (i : nat) :
  nth_error (h ++ ext) (length h + i) = nth_error ext i.
Proof.
  rewrite nth_error_app2 by lia. f_equal. lia.
Qed.

Lemma nth_error_old {A} (h ext : list A) (p : nat) (t : A) :
  nth_error h p = Some t -> nth_error (h ++ ext) p = Some t.
Proof.
  intros H. rewrite nth_error_app1; [exact H|].
  apply nth_error_Some. congruence.
Qed.

Lemma st_alloc_ext (h ext : store) (t : tensor R) :
  st_alloc t (h ++ ext)
  = Ok ((length h + length ext)%nat, h ++ (ext ++ [t])).
Proof.
  unfold st_alloc. now rewrite length_app, app_assoc.
Qed.

Lemma st_read_ext (h ext : store) (i : nat) (t : tensor R) :
  nth_error ext i = Some t ->
  st_read (length h + i)%nat (h ++ ext) = Ok (t, h ++ ext).
Proof.
  intros H. unfold st_read. now rewrite nth_error_ext, H.
Qed.

Lemma st_read_old (h ext : store) (p : loc) (t : tensor R) :
  nth_error h p = Some t -> st_read p (h ++ ext) = Ok (t, h ++ ext).
Proof.
  intros H. unfold st_read. now rewrite (@nth_error_old _ h ext p t H).
Qed.

(** An operator on two references, one of them allocated before the call. *)
Lemma st_binop_ext (op : tensor R -> tensor R -> result (tensor R))
  (h ext : store) (i : nat) (p : loc) (ta tb : tensor R) :
  nth_error ext i = Some ta -> nth_error h p = Some tb ->
  st_binop op (length h + i)%nat p (h ++ ext)
  = match op ta tb with
    | Ok r => Ok ((length h + length ext)%nat, h ++ (ext ++ [r]))
    | Err e => Err e
    end.
Proof.
  intros Ha Hb. unfold st_binop, st_bind.
  rewrite (@st_read_ext h ext i ta Ha), (@st_read_old h ext p tb Hb).
  unfold st_lift. destruct (op ta tb); cbn [bind]; [|reflexivity].
  apply st_alloc_ext.
Qed.

Lemma st_binop_ext2 (op : tensor R -> tensor R -> result (tensor R))
  (h ext : store) (i j : nat) (ta tb : tensor R) :
  nth_error ext i = Some ta -> nth_error ext j = Some tb ->
  st_binop op (length h + i)%nat (length h + j)%nat (h ++ ext)
  = match op ta tb with
    | Ok r => Ok ((length h + length ext)%nat, h ++ (ext ++ [r]))
    | Err e => Err e
    end.
Proof.
  intros Ha Hb. unfold st_binop, st_bind.
  rewrite (@st_read_ext h ext i ta Ha), (@st_read_ext h ext j tb Hb).
  unfold st_lift. destruct (op ta tb); cbn [bind]; [|reflexivity].
  apply st_alloc_ext.
Qed.

Lemma st_squeeze_ext (k : nat) (h ext : store) (i : nat) (ta : tensor R) :
  nth_error ext i = Some ta ->
  st_squeeze k (length h + i)%nat (h ++ ext)
  = match squeeze k ta with
    | Ok r => Ok ((length h + length ext)%nat, h ++ (ext ++ [r]))
    | Err e => Err e
    end.
Proof.
  intros Ha. unfold st_squeeze, st_bind.
  rewrite (@st_read_ext h ext i ta Ha).
  unfold st_lift. destruct (squeeze k ta); cbn [bind]; [|reflexivity].
  apply st_alloc_ext.
Qed.

Lemma st_light_ext
  (f : list (list (list vec3)) -> option (tensor R) -> R -> tensor R ->
       result (tensor R))
  (fv : list (list (list vec3))) (h ext : store) (p : loc)
  (textures : tensor R) (intensity : R) (color : tensor R) :
  nth_error h p = Some textures ->
  st_light f fv (Some p) intensity color (h ++ ext)
  = match f fv (Some textures) intensity color with
    | Ok r => Ok ((length h + length ext)%nat, h ++ (ext ++ [r]))
    | Err e => Err e
    end.
Proof.
  intros Hp. unfold st_light, st_bind.
  rewrite (@st_read_old h ext p textures Hp). unfold st_ret, st_lift.
  destruct (f fv (Some textures) intensity color); cbn [bind];
    [|reflexivity].
  apply st_alloc_ext.
Qed.

Section LightingClaims.

Variable rasterizer : Type.
Variable compute_ambient_light compute_directional_light :
  list (list (list vec3)) -> option (tensor R) -> R -> tensor R ->
  result (tensor R).

Local Abbreviation Lighting :=
  (@lighting rasterizer compute_ambient_light compute_directional_light).
Local Abbreviation SpecLighting :=
(@spec_lighting rasterizer compute_ambient_light compute_directional_light).
Local Abbreviation LightingSt :=
  (@lighting_st rasterizer compute_ambient_light
     compute_directional_light).

(** The collaborators return well-formed tensors. *)
Hypothesis ambient_wf :
  forall fv t i c r, compute_ambient_light fv t i c = Ok r -> wf r.
Hypothesis directional_wf :
  forall fv t i c r, compute_directional_light fv t i c = Ok r -> wf r.

Lemma lighting_refines_spec (self : SoftRenderer rasterizer)
  (vertices : vertices_t) (faces : faces_t) (textures : tensor R) :
  wf textures ->
  Lighting self vertices faces (Some textures)
  = SpecLighting self vertices faces textures.
Proof.
  intros Wt. unfold lighting, spec_lighting.
  destruct (vertices_to_faces vertices faces) as [fv|e]; cbn [bind];
    [|reflexivity].
  destruct (compute_ambient_light _ _ _ _) as [amb|e] eqn:Ha; cbn [bind];
    [|reflexivity].
  destruct (compute_directional_light _ _ _ _) as [dir|e] eqn:Hd;
    cbn [bind]; [|reflexivity].
  apply ambient_wf in Ha. apply directional_wf in Hd.
  destruct (squeeze 2 amb) as [a1|e] eqn:H1; cbn [bind]; [|reflexivity].
  destruct (squeeze 2 a1) as [a2|e] eqn:H2; cbn [bind]; [|reflexivity].
  destruct (squeeze 2 dir) as [d1|e] eqn:H3; cbn [bind]; [|reflexivity].
  destruct (squeeze 2 d1) as [d2|e] eqn:H4; cbn [bind]; [|reflexivity].
  apply broadcast_distr; [| |exact Wt].
  - exact (squeeze_wf _ H2 (squeeze_wf _ H1 Ha)).
  - exact (squeeze_wf _ H4 (squeeze_wf _ H3 Hd)).
Qed.

(** On the store: the call allocates and never writes. *)
Lemma lighting_st_run (self : SoftRenderer rasterizer)
  (vertices : vertices_t) (faces : faces_t) (textures : tensor R)
  (h : store) (p : loc) :
  nth_error h p = Some textures ->
  match LightingSt self vertices faces (Some p) (h ++ []) with
  | Ok (q, h') =>
      exists ext lit,
        h' = h ++ ext
        /\ Lighting self vertices faces (Some textures) = Ok lit
        /\ nth_error h' q = Some lit
  | Err e => Lighting self vertices faces (Some textures) = Err e
  end.
Proof.
  intros Hp. unfold lighting, lighting_st.
  unfold st_bind at 1. unfold st_lift at 1.
  destruct (vertices_to_faces vertices faces) as [fv|e]; cbn [bind];
    [|reflexivity].
  unfold st_bind at 1.
  rewrite (@st_light_ext _ fv h [] p textures _ _ Hp).
  destruct (compute_ambient_light _ _ _ _) as [amb|e]; cbn [bind];
    [|reflexivity].
  unfold st_bind at 1.
  rewrite (@st_light_ext _ fv h _ p textures _ _ Hp).
  destruct (compute_directional_light _ _ _ _) as [dir|e]; cbn [bind];
    [|reflexivity].
  cbn [app length].
  unfold st_bind at 1.
  erewrite (@st_squeeze_ext 2 h _ 0) by reflexivity.
  destruct (squeeze 2 amb) as [a1|e]; cbn [bind]; [|reflexivity].
  cbn [app length]. unfold st_bind at 1.
  erewrite (@st_squeeze_ext 2 h _ 2) by reflexivity.
  destruct (squeeze 2 a1) as [a2|e]; cbn [bind]; [|reflexivity].
  cbn [app length]. unfold st_bind at 1.
  erewrite (@st_squeeze_ext 2 h _ 1) by reflexivity.
  destruct (squeeze 2 dir) as [d1|e]; cbn [bind]; [|reflexivity].
  cbn [app length]. unfold st_bind at 1.
  erewrite (@st_squeeze_ext 2 h _ 4) by reflexivity.
  destruct (squeeze 2 d1) as [d2|e]; cbn [bind]; [|reflexivity].
  cbn [app length]. unfold st_bind at 1.
  erewrite (@st_binop_ext tmul h _ 3 p) by (reflexivity || exact Hp).
  destruct (tmul a2 textures) as [m1|e]; cbn [bind]; [|reflexivity].
  cbn [app length]. unfold st_bind at 1.
  erewrite (@st_binop_ext tmul h _ 5 p) by (reflexivity || exact Hp).
  destruct (tmul d2 textures) as [m2|e]; cbn [bind]; [|reflexivity].
  cbn [app length].
  erewrite (@st_binop_ext2 tadd h _ 6 7) by reflexivity.
  destruct (tadd m1 m2) as [lit|e]; [|reflexivity].
  cbn [app length]. eexists. exists lit. split; [reflexivity|].
  split; [reflexivity|]. now rewrite nth_error_ext.
Qed.


End LightingClaims.

Lemma flat_light_wf :
  forall fv t i c r, flat_light fv t i c = Ok r -> wf r.
Proof.
  intros fv t i c r. unfold flat_light.
  destruct (data c) as [|x [|y [|z [|w l]]]]; try discriminate.
  intros H. injection H as <-. reflexivity.
Qed.


(** * Further properties of the camera transforms *)

Lemma dot_normalize_scaled (v w : vec3) :
  dot (normalize v) w = dot v w * / Rmax (norm v) eps.
Proof. unfold dot, normalize. simpl. unfold Rdiv. ring. Qed.

Lemma matvec_zero_rows (z w : vec3) :
  matvec (M3 (V3 0 0 0) (V3 0 0 0) z) w = V3 0 0 (dot z w).
Proof. unfold matvec, dot. simpl. f_equal; ring. Qed.

Lemma cross3_zero_r (z : vec3) : cross3 z (V3 0 0 0) = V3 0 0 0.
Proof. unfold cross3. simpl. f_equal; ring. Qed.

Lemma look_unfold (vertices : vertices_t) (eye direction : vec3)
  (up : option vec3) :
  look vertices eye direction up
  = map (map (fun v =>
                matvec (look_basis direction
                          match up with None => V3 0 1 0 | Some u => u end)
                  (vsub v eye))) vertices.
Proof.
  unfold look, look_basis. apply map_ext. intros vs. apply map_ext.
  intros v. apply vecmat_transpose.
Qed.

Lemma look_basis_orthonormal (direction up : vec3) :
  eps <= norm direction ->
  eps <= norm (cross3 up (normalize direction)) ->
  orthonormal (look_basis direction up).
Proof.
  intros Hz Hx. unfold look_basis, orthonormal. simpl.
  set (z := normalize direction) in *.
  set (x := normalize (cross3 up z)).
  assert (Hzz : dot z z = 1) by (apply normalize_unit; exact Hz).
  assert (Hxx : dot x x = 1) by (apply normalize_unit; exact Hx).
  assert (Hxz : dot x z = 0).
  { unfold x. rewrite dot_normalize_scaled, dot_cross_right.
    apply Rmult_0_l. }
  assert (Hc : dot (cross3 z x) (cross3 z x) = 1).
  { rewrite lagrange, Hzz, Hxx, (dot_comm z x), Hxz. ring. }
  rewrite (normalize_of_unit Hc).
  repeat split; try assumption.
  - rewrite dot_comm. apply dot_cross_right.
  - apply dot_cross_left.
Qed.

(** X1: [look] maps every vertex v to R . (v - eye), R with the rows
    (x, y, z) built from the direction, for every batch size; the basis is
    orthonormal when the direction and up x z are not shorter than 1e-5;
    and [look_at] is [look] in the direction at - eye, except on a batch of
    size 3. *)
Theorem look_transform :
  (forall vertices eye direction up,
     look vertices eye direction up
     = map (map (fun v =>
                   matvec (look_basis direction
                             match up with None => V3 0 1 0 | Some u => u end)
                     (vsub v eye))) vertices)
  /\ (forall direction up,
        eps <= norm direction ->
        eps <= norm (cross3 up (normalize direction)) ->
        orthonormal (look_basis direction up))
  /\ (forall vertices eye at_ up,
        length vertices <> 3%nat ->
        look_at vertices eye at_ up
        = look vertices eye (vsub at_ eye) (Some up)).
Proof.
  split; [exact look_unfold|]. split; [exact look_basis_orthonormal|].
  intros vertices eye at_ up Hn. rewrite look_at_unfold, look_unfold.
  unfold look_at_rotation.
  destruct (Nat.eqb_spec (length vertices) 3); [contradiction|reflexivity].
Qed.

Lemma look_transform_witness :
  eps <= norm (V3 0 0 1)
  /\ eps <= norm (cross3 (V3 0 1 0) (normalize (V3 0 0 1)))
  /\ length triangle_vertices <> 3%nat
  /\ orthonormal (look_basis (V3 0 0 1) (V3 0 1 0))
  /\ look_at triangle_vertices (V3 0 0 (- 2)) (V3 0 0 0) (V3 0 1 0)
     = look triangle_vertices (V3 0 0 (- 2))
         (vsub (V3 0 0 0) (V3 0 0 (- 2))) (Some (V3 0 1 0)).
Proof.
  assert (Hz : normalize (V3 0 0 1) = V3 0 0 1).
  { apply normalize_axis_z; unfold eps; lra. }
  assert (H1 : eps <= norm (V3 0 0 1)).
  { unfold norm, dot. simpl.
    replace (0 * 0 + 0 * 0 + 1 * 1) with 1 by ring.
    rewrite sqrt_1. unfold eps. lra. }
  assert (H2 : eps <= norm (cross3 (V3 0 1 0) (normalize (V3 0 0 1)))).
  { rewrite Hz. unfold cross3, norm, dot. simpl.
    replace ((1 * 1 - 0 * 0) * (1 * 1 - 0 * 0)
             + (0 * 0 - 0 * 1) * (0 * 0 - 0 * 1)
             + (0 * 0 - 1 * 0) * (0 * 0 - 1 * 0)) with 1 by ring.
    rewrite sqrt_1. unfold eps. lra. }
  assert (H3 : length triangle_vertices <> 3%nat) by discriminate.
  repeat (split; [assumption|]).
  destruct look_transform as (_ & HB & HC).
  split; [exact (HB _ _ H1 H2) | exact (HC _ _ _ _ H3)].
Defined.

(** X2: when the direction is parallel to up (as with the defaults of
    [look], direction (0, 1, 0) and up (0, 1, 0)), the rows x and y of the
    rotation are zero: every vertex goes to (0, 0, z . (v - eye)). *)
Theorem look_parallel_collapses :
  forall vertices eye direction up,
    cross3 up direction = V3 0 0 0 ->
    look vertices eye direction (Some up)
    = map (map (fun v => V3 0 0 (dot (normalize direction) (vsub v eye))))
        vertices.
Proof.
  intros vertices eye direction up H. rewrite look_unfold.
  assert (Hx : cross3 up (normalize direction) = V3 0 0 0).
  { unfold cross3 in *. unfold normalize. simpl.
    injection H as H1 H2 H3. unfold Rdiv.
    set (n := / Rmax (norm direction) eps).
    f_equal.
    - replace (vy up * (vz direction * n) - vz up * (vy direction * n))
        with ((vy up * vz direction - vz up * vy direction) * n) by ring.
      rewrite H1. ring.
    - replace (vz up * (vx direction * n) - vx up * (vz direction * n))
        with ((vz up * vx direction - vx up * vz direction) * n) by ring.
      rewrite H2. ring.
    - replace (vx up * (vy direction * n) - vy up * (vx direction * n))
        with ((vx up * vy direction - vy up * vx direction) * n) by ring.
      rewrite H3. ring. }
  unfold look_basis. rewrite Hx, normalize_zero, cross3_zero_r, normalize_zero.
  apply map_ext. intros vs. apply map_ext. intros v.
  apply matvec_zero_rows.
Qed.

Lemma look_parallel_collapses_witness :
  cross3 (V3 0 1 0) (V3 0 1 0) = V3 0 0 0
  /\ look triangle_vertices (V3 0 0 (- 2)) (V3 0 1 0) (Some (V3 0 1 0))
     = map (map (fun v => V3 0 0 (dot (normalize (V3 0 1 0))
                                    (vsub v (V3 0 0 (- 2))))))
         triangle_vertices.
Proof.
  assert (H : cross3 (V3 0 1 0) (V3 0 1 0) = V3 0 0 0).
  { unfold cross3. simpl. f_equal; ring. }
  split; [exact H|].
  exact (look_parallel_collapses triangle_vertices (V3 0 0 (- 2)) H).
Defined.

Lemma vsub_self (v : vec3) : vsub v v = V3 0 0 0.
Proof. unfold vsub. f_equal; ring. Qed.

Lemma matvec_origin (m : mat3) : matvec m (V3 0 0 0) = V3 0 0 0.
Proof. unfold matvec, dot. simpl. f_equal; ring. Qed.

Lemma vsub_vadd (t a b : vec3) : vsub (vadd t a) (vadd t b) = vsub a b.
Proof. unfold vsub, vadd. simpl. f_equal; ring. Qed.

Lemma dot_normalize_self (w : vec3) :
  eps <= norm w -> dot (normalize w) w = norm w.
Proof.
  intros H. pose proof eps_pos.
  rewrite (dot_normalize w w H), <- norm_sqr. field. lra.
Qed.

(** Both x and y of the basis are perpendicular to the viewing direction. *)
Lemma basis_rows_perpendicular (w up : vec3) :
  let z := normalize w in
  let x := normalize (cross3 up z) in
  dot x w = 0 /\ dot (normalize (cross3 z x)) w = 0.
Proof.
  intros z x. split.
  - unfold x. rewrite dot_normalize_scaled.
    replace (dot (cross3 up z) w) with 0; [ring|].
    unfold z, dot, cross3, normalize. simpl. unfold Rdiv. ring.
  - rewrite dot_normalize_scaled.
    replace (dot (cross3 z x) w) with 0; [ring|].
    unfold z, dot, cross3, normalize. simpl. unfold Rdiv. ring.
Qed.

(** X3: [look_at] sends the camera position to the origin, and the target
    [at] to the point (0, 0, |at - eye|) on the optical axis when
    |at - eye| >= 1e-5; both for every batch size. *)
Theorem look_at_eye_and_target :
  forall vertices eye at_ up b i,
    (get2 vertices b i = Some eye ->
     get2 (look_at vertices eye at_ up) b i = Some (V3 0 0 0))
    /\ (eps <= norm (vsub at_ eye) ->
        get2 vertices b i = Some at_ ->
        get2 (look_at vertices eye at_ up) b i
        = Some (V3 0 0 (norm (vsub at_ eye)))).
Proof.
  intros vertices eye at_ up b i. split.
  - intros Hv. rewrite look_at_unfold, get2_map, Hv. simpl.
    now rewrite vsub_self, matvec_origin.
  - intros Hn Hv. rewrite look_at_unfold, get2_map, Hv. simpl. f_equal.
    unfold look_at_rotation. destruct (Nat.eqb (length vertices) 3).
    + rewrite matvec_zero_rows. now rewrite dot_normalize_self.
    + unfold look_at_basis, matvec. cbn [row0 row1 row2].
      destruct (basis_rows_perpendicular (vsub at_ eye) up) as [Hx Hy].
      cbv zeta in Hx, Hy. rewrite Hx, Hy. now rewrite dot_normalize_self.
Qed.

Lemma look_at_eye_and_target_witness :
  get2 [[V3 0 0 (- 2); V3 0 0 0]] 0 0 = Some (V3 0 0 (- 2))
  /\ eps <= norm (vsub (V3 0 0 0) (V3 0 0 (- 2)))
  /\ get2 [[V3 0 0 (- 2); V3 0 0 0]] 0 1 = Some (V3 0 0 0)
  /\ get2 (look_at [[V3 0 0 (- 2); V3 0 0 0]] (V3 0 0 (- 2)) (V3 0 0 0)
             (V3 0 1 0)) 0 0 = Some (V3 0 0 0)
  /\ get2 (look_at [[V3 0 0 (- 2); V3 0 0 0]] (V3 0 0 (- 2)) (V3 0 0 0)
             (V3 0 1 0)) 0 1
     = Some (V3 0 0 (norm (vsub (V3 0 0 0) (V3 0 0 (- 2))))).
Proof.
  assert (H1 : get2 [[V3 0 0 (- 2); V3 0 0 0]] 0 0 = Some (V3 0 0 (- 2)))
    by reflexivity.
  assert (H2 : eps <= norm (vsub (V3 0 0 0) (V3 0 0 (- 2)))).
  { unfold vsub, norm, dot. simpl.
    replace ((0 - 0) * (0 - 0) + (0 - 0) * (0 - 0) + (0 - - 2) * (0 - - 2))
      with (2 * 2) by ring.
    rewrite sqrt_square by lra. unfold eps. lra. }
  assert (H3 : get2 [[V3 0 0 (- 2); V3 0 0 0]] 0 1 = Some (V3 0 0 0))
    by reflexivity.
  repeat (split; [assumption|]).
  split.
  - exact (proj1 (look_at_eye_and_target _ _ (V3 0 0 0) (V3 0 1 0) _ _) H1).
  - exact (proj2 (look_at_eye_and_target _ (V3 0 0 (- 2)) _ (V3 0 1 0) _ _)
             H2 H3).
Defined.

(** X4: [look_at] depends on the scene only relative to the camera: moving
    the vertices, the eye and the target by the same vector changes
    nothing. *)
Theorem look_at_translation_invariant :
  forall vertices eye at_ up t,
    look_at (map (map (vadd t)) vertices) (vadd t eye) (vadd t at_) up
    = look_at vertices eye at_ up.
Proof.
  intros vertices eye at_ up t. rewrite !look_at_unfold, length_map.
  unfold look_at_rotation, look_at_basis. rewrite !vsub_vadd.
  rewrite map_map. apply map_ext. intros vs.
  rewrite map_map. apply map_ext. intros v. now rewrite vsub_vadd.
Qed.

Lemma frame_preserves_norm (x z w : vec3) :
  dot x x = 1 -> dot z z = 1 -> dot x z = 0 ->
  dot x w * dot x w + dot (cross3 z x) w * dot (cross3 z x) w
  + dot z w * dot z w = dot w w.
Proof.
  destruct x as [x1 x2 x3], z as [z1 z2 z3], w as [w1 w2 w3].
  unfold dot, cross3. simpl. intros H1 H2 H3. nsatz.
Qed.

Lemma matvec_vsub (m : mat3) (a b : vec3) :
  vsub (matvec m a) (matvec m b) = matvec m (vsub a b).
Proof. unfold vsub, matvec, dot. simpl. f_equal; ring. Qed.

(** X5: away from the epsilon clamp and on a batch whose size is not 3,
    [look_at] is a rigid motion: the squared distance between the images of
    two vertices is the squared distance between the vertices. *)
Theorem look_at_preserves_distances :
  forall vertices eye at_ up b i b' i' u v u' v',
    length vertices <> 3%nat ->
    eps <= norm (vsub at_ eye) ->
    eps <= norm (cross3 up (normalize (vsub at_ eye))) ->
    get2 vertices b i = Some u -> get2 vertices b' i' = Some v ->
    get2 (look_at vertices eye at_ up) b i = Some u' ->
    get2 (look_at vertices eye at_ up) b' i' = Some v' ->
    dot (vsub u' v') (vsub u' v') = dot (vsub u v) (vsub u v).
Proof.
  intros vertices eye at_ up b i b' i' u v u' v' Hn Hz Hx Hu Hv Hu' Hv'.
  rewrite look_at_unfold, get2_map in Hu', Hv'.
  rewrite Hu in Hu'. rewrite Hv in Hv'. simpl in Hu', Hv'.
  injection Hu' as <-. injection Hv' as <-.
  unfold look_at_rotation.
  destruct (Nat.eqb_spec (length vertices) 3); [contradiction|].
  rewrite matvec_vsub.
  replace (vsub (vsub u eye) (vsub v eye)) with (vsub u v)
    by (unfold vsub; simpl; f_equal; ring).
  set (w := vsub u v).
  unfold look_at_basis.
  set (z := normalize (vsub at_ eye)) in *.
  set (x := normalize (cross3 up z)).
  assert (Hzz : dot z z = 1) by (apply normalize_unit; exact Hz).
  assert (Hxx : dot x x = 1) by (apply normalize_unit; exact Hx).
  assert (Hxz : dot x z = 0).
  { unfold x. rewrite dot_normalize_scaled, dot_cross_right.
    apply Rmult_0_l. }
  assert (Hc : dot (cross3 z x) (cross3 z x) = 1).
  { rewrite lagrange, Hzz, Hxx, (dot_comm z x), Hxz. ring. }
  rewrite (normalize_of_unit Hc).
  rewrite <- (frame_preserves_norm w Hxx Hzz Hxz).
  unfold matvec. cbn [row0 row1 row2]. unfold dot at 1. simpl. ring.
Qed.

Lemma look_at_preserves_distances_witness :
  length triangle_vertices <> 3%nat
  /\ eps <= norm (vsub (V3 0 0 0) (V3 0 0 (- 1)))
  /\ eps <= norm (cross3 (V3 0 1 0)
                    (normalize (vsub (V3 0 0 0) (V3 0 0 (- 1)))))
  /\ get2 triangle_vertices 0 1 = Some (V3 1 0 0)
  /\ get2 triangle_vertices 0 2 = Some (V3 0 1 0)
  /\ exists u' v',
       get2 (look_at triangle_vertices (V3 0 0 (- 1)) (V3 0 0 0) (V3 0 1 0))
         0 1 = Some u'
       /\ get2 (look_at triangle_vertices (V3 0 0 (- 1)) (V3 0 0 0)
                  (V3 0 1 0)) 0 2 = Some v'
       /\ dot (vsub u' v') (vsub u' v')
          = dot (vsub (V3 1 0 0) (V3 0 1 0)) (vsub (V3 1 0 0) (V3 0 1 0)).
Proof.
  assert (H1 : length triangle_vertices <> 3%nat) by discriminate.
  assert (Hz : normalize (vsub (V3 0 0 0) (V3 0 0 (- 1))) = V3 0 0 1).
  { unfold vsub. simpl. apply normalize_axis_z; unfold eps; lra. }
  assert (H2 : eps <= norm (vsub (V3 0 0 0) (V3 0 0 (- 1)))).
  { unfold vsub, norm, dot. simpl.
    replace ((0 - 0) * (0 - 0) + (0 - 0) * (0 - 0) + (0 - - 1) * (0 - - 1))
      with 1 by ring.
    rewrite sqrt_1. unfold eps. lra. }
  assert (H3 : eps <= norm (cross3 (V3 0 1 0)
                              (normalize (vsub (V3 0 0 0) (V3 0 0 (- 1)))))).
  { rewrite Hz. unfold cross3, norm, dot. simpl.
    replace ((1 * 1 - 0 * 0) * (1 * 1 - 0 * 0)
             + (0 * 0 - 0 * 1) * (0 * 0 - 0 * 1)
             + (0 * 0 - 1 * 0) * (0 * 0 - 1 * 0)) with 1 by ring.
    rewrite sqrt_1. unfold eps. lra. }
  assert (H4 : get2 triangle_vertices 0 1 = Some (V3 1 0 0)) by reflexivity.
  assert (H5 : get2 triangle_vertices 0 2 = Some (V3 0 1 0)) by reflexivity.
  repeat (split; [assumption|]).
  do 2 eexists.
  match goal with |- ?A /\ ?B /\ _ =>
    assert (Hu : A) by reflexivity; assert (Hv : B) by reflexivity end.
  split; [exact Hu|]. split; [exact Hv|].
  exact (look_at_preserves_distances _ _ _ _ _ _ _ _ H1 H2 H3 H4 H5 Hu Hv).
Defined.

Lemma look_at_batch_of_three_rows (vertices : vertices_t)
  (eye at_ up : vec3) :
  length vertices = 3%nat ->
  look_at vertices eye at_ up
  = map (map (fun v =>
                V3 0 0 (dot (normalize (vsub at_ eye)) (vsub v eye))))
      vertices.
Proof.
  intros H. rewrite look_at_unfold.
  unfold look_at_rotation. rewrite H. simpl.
  apply map_ext. intros vs. apply map_ext. intros v.
  apply matvec_zero_rows.
Qed.

(** X6: on a batch of exactly three meshes [torch.cross], called without
    [dim], works along the batch dimension, the rows x and y come out zero
    and [look_at] sends every vertex to (0, 0, z . (v - eye)). *)
Theorem look_at_batch_of_three :
  forall vertices eye at_ up,
    length vertices = 3%nat ->
    look_at vertices eye at_ up
    = map (map (fun v =>
                  V3 0 0 (dot (normalize (vsub at_ eye)) (vsub v eye))))
        vertices.
Proof.
  intros vertices eye at_ up H. now apply look_at_batch_of_three_rows.
Qed.

Lemma look_at_batch_of_three_witness :
  length [[V3 1 1 0]; [V3 1 1 0]; [V3 1 1 0]] = 3%nat
  /\ look_at [[V3 1 1 0]; [V3 1 1 0]; [V3 1 1 0]] (V3 0 0 (- 2))
       (V3 0 0 0) (V3 0 1 0)
     = map (map (fun v =>
                   V3 0 0 (dot (normalize (vsub (V3 0 0 0) (V3 0 0 (- 2))))
                             (vsub v (V3 0 0 (- 2))))))
         [[V3 1 1 0]; [V3 1 1 0]; [V3 1 1 0]].
Proof.
  split; [reflexivity|].
  exact (look_at_batch_of_three [[V3 1 1 0]; [V3 1 1 0]; [V3 1 1 0]]
           (V3 0 0 (- 2)) (V3 0 0 0) (V3 0 1 0) eq_refl).
Defined.

(** * The camera pipeline of a constructed renderer *)

Lemma look_basis_forward :
  look_basis (V3 0 0 1) (V3 0 1 0) = M3 (V3 1 0 0) (V3 0 1 0) (V3 0 0 1).
Proof.
  unfold look_basis.
  assert (Hz : normalize (V3 0 0 1) = V3 0 0 1).
  { apply normalize_axis_z; unfold eps; lra. }
  rewrite Hz.
  assert (Hx : normalize (cross3 (V3 0 1 0) (V3 0 0 1)) = V3 1 0 0).
  { unfold cross3. simpl. apply normalize_axis_x; unfold eps; lra. }
  rewrite Hx.
  assert (Hy : normalize (cross3 (V3 0 0 1) (V3 1 0 0)) = V3 0 1 0).
  { unfold cross3. simpl. apply normalize_axis_y; unfold eps; lra. }
  rewrite Hy. reflexivity.
Qed.

Lemma identity_matvec_shift (v : vec3) (d : R) :
  matvec (M3 (V3 1 0 0) (V3 0 1 0) (V3 0 0 1)) (vsub v (V3 0 0 (- d)))
  = V3 (vx v) (vy v) (vz v + d).
Proof. unfold matvec, dot, vsub. simpl. f_equal; ring. Qed.

Lemma eye_distance_above_one (theta : R) :
  0 < theta < 90 -> 1 < 1 / tan (PI * theta / 180) + 1.
Proof.
  intros [H0 H90]. pose proof PI_RGT_0 as Hpi.
  assert (Ht : 0 < tan (PI * theta / 180)) by (apply tan_gt_0; nra).
  assert (0 < 1 / tan (PI * theta / 180)); [|lra].
  unfold Rdiv. rewrite Rmult_1_l. now apply Rinv_0_lt_compat.
Qed.

Lemma init_look_fields (rasterizer : Type)
  (SoftRasterizer : rasterizer_args -> result rasterizer)
  (a : init_args) (self : SoftRenderer rasterizer) :
  __init__ SoftRasterizer a = Ok self ->
  arg_camera_mode a = "look" \/ arg_camera_mode a = "look_at" ->
  camera_mode self = arg_camera_mode a
  /\ eye self
     = Some (V3 0 0 (- (1 / tan (PI * arg_viewing_angle a / 180) + 1)))
  /\ camera_direction self = Some (V3 0 0 1)
  /\ viewing_angle self = Some (arg_viewing_angle a).
Proof.
  intros H Hm. unfold __init__ in H. bind_inv H. injection H as <-. simpl.
  destruct Hm as [-> | ->]; simpl; auto.
Qed.

Lemma transform_look (rasterizer : Type) (self : SoftRenderer rasterizer)
  (vertices : vertices_t) (e dir : vec3) :
  camera_mode self = "look" -> eye self = Some e ->
  camera_direction self = Some dir ->
  transform_to_camera_frame self vertices = Ok (look vertices e dir None).
Proof.
  intros Hm He Hd. unfold transform_to_camera_frame.
  rewrite Hm, He, Hd. reflexivity.
Qed.

Lemma transform_look_at (rasterizer : Type) (self : SoftRenderer rasterizer)
  (vertices : vertices_t) (e : vec3) :
  camera_mode self = "look_at" -> eye self = Some e ->
  transform_to_camera_frame self vertices
  = Ok (look_at vertices e (V3 0 0 0) (V3 0 1 0)).
Proof.
  intros Hm He. unfold transform_to_camera_frame.
  rewrite Hm, He. reflexivity.
Qed.

Lemma project_looking (rasterizer : Type) (self : SoftRenderer rasterizer)
  (vertices : vertices_t) (angle : R) :
  camera_mode self = "look" \/ camera_mode self = "look_at" ->
  viewing_angle self = Some angle ->
  project_to_image self vertices
  = Ok (perspective_distortion vertices angle).
Proof.
  intros Hm Ha. unfold project_to_image.
  destruct Hm as [Hm | Hm]; rewrite Hm, Ha; reflexivity.
Qed.



(** * Perspective distortion *)



(** * More on the gather *)

Lemma mapM_length {A B} (f : A -> result B) (l : list A) (out : list B) :
  mapM f l = Ok out -> length out = length l.
Proof.
  revert out. induction l as [|x l IH]; intros out H; simpl in H.
  - injection H as <-. reflexivity.
  - bind_inv H. bind_inv H. injection H as <-. simpl. f_equal. now apply IH.
Qed.

Lemma mapM_app {A B} (f : A -> result B) (l1 l2 : list A) :
  mapM f (l1 ++ l2)
  = (o1 <- mapM f l1 ;; o2 <- mapM f l2 ;; Ok (o1 ++ o2)).
Proof.
  induction l1 as [|x l1 IH]; simpl.
  - destruct (mapM f l2); reflexivity.
  - destruct (f x) as [y|e]; simpl; [|reflexivity].
    rewrite IH. destruct (mapM f l1) as [o1|e]; simpl; [|reflexivity].
    destruct (mapM f l2); reflexivity.
Qed.

Lemma mapM_map {A A' B} (f : A' -> result B) (g : A -> A') (l : list A) :
  mapM f (map g l) = mapM (fun x => f (g x)) l.
Proof.
  induction l as [|x l IH]; simpl; [reflexivity | now rewrite IH].
Qed.

Lemma mapM_ext_in {A B} (f g : A -> result B) (l : list A) :
  (forall x, In x l -> f x = g x) -> mapM f l = mapM g l.
Proof.
  induction l as [|x l IH]; intros H; simpl; [reflexivity|].
  rewrite (H x (or_introl eq_refl)), IH; [reflexivity|].
  intros y Hy. apply H. now right.
Qed.

Lemma mapM_rev_ok {A B} (f : A -> result B) (l : list A) (out : list B) :
  mapM f l = Ok out -> mapM f (rev l) = Ok (rev out).
Proof.
  revert out. induction l as [|x l IH]; intros out H; simpl in H.
  - injection H as <-. reflexivity.
  - bind_inv H. bind_inv H. injection H as <-. simpl.
    rewrite mapM_app, (IH _ Ha0). simpl. now rewrite Ha.
Qed.

Lemma is_ok_true_ok {A} (m : result A) :
  is_ok m = true -> exists a, m = Ok a.
Proof. destruct m; [eauto | discriminate]. Qed.

(** Indexing the flattened vertices with in-range flat indices. *)
Lemma gather_flat {A} (rows : list A) (t : list (list (list Z))) :
  (forall b f c j, get3 t b f c = Some j ->
                   (0 <= j < Z.of_nat (length rows))%Z) ->
  exists out,
    mapM (mapM (mapM (index_row rows))) t = Ok out
    /\ forall b f c j, get3 t b f c = Some j ->
                       get3 out b f c = nth_error rows (Z.to_nat j).
Proof.
  intros Hr.
  destruct (mapM (mapM (mapM (index_row rows))) t) as [out|e] eqn:Hout.
  - exists out. split; [reflexivity|]. intros b f c j Hj.
    destruct (mapM3_ok_get3 _ _ Hout _ _ _ Hj) as (y & Hy & ->).
    symmetry. apply index_row_in_range; [|exact Hy].
    apply (Hr _ _ _ _ Hj).
  - exfalso.
    assert (Hf : is_ok (mapM (mapM (mapM (index_row rows))) t) = false)
      by now rewrite Hout.
    apply is_ok_mapM3_false in Hf. destruct Hf as (b & f & c & j & Hj & Hbad).
    pose proof (Hr _ _ _ _ Hj) as Hin.
    assert (Hok : is_ok (index_row rows j) = true)
      by (apply index_row_is_ok; lia).
    congruence.
Qed.

Lemma add_batch_offset_shared (fs : list (list Z)) (offs : list Z) :
  add_batch_offset [fs] offs
  = Ok (map (fun o => map (map (fun i => (i + o)%Z)) fs) offs).
Proof.
  unfold add_batch_offset. simpl.
  destruct offs as [|o [|o' offs]]; reflexivity.
Qed.

Lemma get3_shared (fs : list (list Z)) (B V b f c : nat) :
  (b < B)%nat ->
  get3 (map (fun o => map (map (fun i => (i + o)%Z)) fs)
          (map (fun k => (k * Z.of_nat V)%Z) (arange B))) b f c
  = option_map (fun i => (i + Z.of_nat b * Z.of_nat V)%Z)
      (get3 [fs] 0 f c).
Proof.
  intros Hb. unfold get3.
  rewrite nth_error_map, (nth_error_offsets V Hb). simpl.
  rewrite nth_error_map.
  destruct (nth_error fs f) as [face|]; simpl; [|reflexivity].
  apply nth_error_map.
Qed.

Lemma get3_out_of_batch {A} (t : list (list (list A))) (b f c : nat) :
  (length t <= b)%nat -> get3 t b f c = None.
Proof.
  intros H. unfold get3. apply nth_error_None in H. now rewrite H.
Qed.

(** X9: one batch of faces is shared by all vertex batches: with faces of
    shape 1 x F x n, vertices of shape B x V x 3 and every index in [0, V),
    entry (b, f, c) of the result is vertices[b][faces[0][f][c]] for every
    b < B.  When the two batch sizes differ and neither is 1 the gather
    raises RuntimeError. *)
Theorem vertices_to_faces_shared_faces :
  forall (vertices : vertices_t) (V : nat),
    Forall (fun vs => length vs = V) vertices ->
    (forall fs : list (list Z),
       (forall f c i, get3 [fs] 0 f c = Some i -> (0 <= i < Z.of_nat V)%Z) ->
       exists out,
         vertices_to_faces vertices [fs] = Ok out
         /\ length out = length vertices
         /\ forall b f c i vs,
              nth_error vertices b = Some vs ->
              get3 [fs] 0 f c = Some i ->
              get3 out b f c = nth_error vs (Z.to_nat i))
    /\ (forall faces : faces_t,
          length faces <> length vertices -> length faces <> 1%nat ->
          length vertices <> 1%nat ->
          vertices_to_faces vertices faces = Err RuntimeError).
Proof.
  intros vertices V Hrect. split.
  - intros fs Hrange.
    assert (Hcase : vertices = [] \/ vertices <> [])
      by (destruct vertices; [left; reflexivity | right; discriminate]).
    destruct Hcase as [-> | Hne].
    { exists []. split; [reflexivity|]. split; [reflexivity|].
      intros b f c i vs Hvs. destruct b; discriminate. }
    unfold vertices_to_faces.
    rewrite add_batch_offset_shared. cbn [bind].
    set (B := length vertices).
    assert (HV : forall f c i, get3 [fs] 0 f c = Some i ->
                               shape1 vertices = V).
    { intros f c i Hi. now apply shape1_rect. }
    assert (Hflat : Z.of_nat (length (concat vertices))
                    = (Z.of_nat B * Z.of_nat V)%Z).
    { rewrite (length_concat_rect Hrect). unfold B. lia. }
    destruct (@gather_flat _ (concat vertices)
                (map (fun o => map (map (fun i => (i + o)%Z)) fs)
                   (map (fun k => (k * Z.of_nat (shape1 vertices))%Z)
                      (arange B)))) as (out & Hout & Hget).
    { intros b f c j Hj.
      destruct (Nat.lt_ge_cases b B) as [Hb|Hb].
      - rewrite (get3_shared fs (shape1 vertices) f c Hb) in Hj.
        destruct (get3 [fs] 0 f c) as [i|] eqn:Hi; [|discriminate].
        injection Hj as <-. rewrite (HV _ _ _ Hi), Hflat.
        pose proof (Hrange _ _ _ Hi). nia.
      - rewrite get3_out_of_batch in Hj; [discriminate|].
        unfold arange. now rewrite !length_map, length_seq. }
    exists out. split; [exact Hout|]. split.
    { apply mapM_length in Hout. rewrite Hout. unfold arange.
      now rewrite !length_map, length_seq. }
    intros b f c i vs Hvs Hi.
    assert (Hb : (b < B)%nat) by (apply nth_error_Some; congruence).
    pose proof (get3_shared fs (shape1 vertices) f c Hb) as Hj.
    rewrite Hi in Hj. simpl in Hj. rewrite (Hget _ _ _ _ Hj).
    rewrite (HV _ _ _ Hi). pose proof (Hrange _ _ _ Hi) as Hr.
    assert (Hvl : length vs = V).
    { apply nth_error_In in Hvs.
      exact (proj1 (Forall_forall _ _) Hrect vs Hvs). }
    replace (Z.to_nat (i + Z.of_nat b * Z.of_nat V))
      with (b * V + Z.to_nat i)%nat by lia.
    destruct (nth_error vs (Z.to_nat i)) as [v|] eqn:Hv;
      [|apply nth_error_None in Hv; lia].
    exact (nth_error_concat_rect _ _ Hrect Hvs Hv).
  - intros faces H1 H2 H3. unfold vertices_to_faces, add_batch_offset.
    unfold arange. rewrite !length_map, length_seq.
    destruct (Nat.eqb_spec (length faces) (length vertices));
      [contradiction|].
    destruct (Nat.eqb_spec (length faces) 1); [contradiction|].
    destruct (Nat.eqb_spec (length vertices) 1); [contradiction|].
    reflexivity.
Qed.

Lemma vertices_to_faces_shared_faces_witness :
  Forall (fun vs => length vs = 3%nat)
    [[V3 0 0 0; V3 1 0 0; V3 0 1 0]; [V3 0 0 1; V3 1 0 1; V3 0 1 1]]
  /\ (forall f c i, get3 [[[0; 1; 2]%Z]] 0 f c = Some i -> (0 <= i < 3)%Z)
  /\ length [[[[0%Z]]]; [[[0%Z]]]; [[[0%Z]]]] <> 2%nat
  /\ (exists out,
        vertices_to_faces
          [[V3 0 0 0; V3 1 0 0; V3 0 1 0]; [V3 0 0 1; V3 1 0 1; V3 0 1 1]]
          [[[0; 1; 2]%Z]] = Ok out
        /\ length out = 2%nat)
  /\ vertices_to_faces
       [[V3 0 0 0; V3 1 0 0; V3 0 1 0]; [V3 0 0 1; V3 1 0 1; V3 0 1 1]]
       [[[0; 1; 2]]; [[0; 1; 2]]; [[0; 1; 2]]]%Z = Err RuntimeError.
Proof.
  assert (H1 : Forall (fun vs => length vs = 3%nat)
                 [[V3 0 0 0; V3 1 0 0; V3 0 1 0];
                  [V3 0 0 1; V3 1 0 1; V3 0 1 1]])
    by (repeat constructor).
  assert (H2 : forall f c i,
             get3 [[[0; 1; 2]%Z]] 0 f c = Some i -> (0 <= i < 3)%Z).
  { intros f c i. unfold get3. simpl.
    destruct f as [|[|f]]; simpl; try discriminate.
    destruct c as [|[|[|[|c]]]]; simpl; try discriminate;
      intros H; injection H as <-; lia. }
  assert (H3 : length [[[[0%Z]]]; [[[0%Z]]]; [[[0%Z]]]] <> 2%nat)
    by discriminate.
  repeat (split; [assumption|]).
  destruct (vertices_to_faces_shared_faces H1) as (HA & HB).
  split.
  - destruct (HA _ H2) as (out & Hout & Hlen & _). exists out. auto.
  - apply HB; discriminate.
Defined.

Lemma add_batch_offset_single (faces : faces_t) (o : Z) :
  add_batch_offset faces [o]
  = Ok (map (map (map (fun i => (i + o)%Z))) faces).
Proof.
  unfold add_batch_offset. simpl.
  destruct faces as [|fs [|fs' faces]]; reflexivity.
Qed.

Lemma get3_map {A B} (g : A -> B) (t : list (list (list A))) (b f c : nat) :
  get3 (map (map (map g)) t) b f c = option_map g (get3 t b f c).
Proof.
  unfold get3. rewrite nth_error_map.
  destruct (nth_error t b) as [fs|]; simpl; [|reflexivity].
  rewrite nth_error_map.
  destruct (nth_error fs f) as [face|]; simpl; [|reflexivity].
  apply nth_error_map.
Qed.

Lemma mapM_map_measure {A B C} (f : A -> result B) (h : A -> C)
  (h' : B -> C) (l : list A) (out : list B) :
  (forall x y, In x l -> f x = Ok y -> h' y = h x) ->
  mapM f l = Ok out -> map h' out = map h l.
Proof.
  revert out. induction l as [|x l IH]; intros out Hh H; simpl in H.
  - injection H as <-. reflexivity.
  - bind_inv H. bind_inv H. injection H as <-. simpl. f_equal.
    + apply Hh; [now left | exact Ha].
    + apply IH; [|exact Ha0]. intros x' y' Hin. apply Hh. now right.
Qed.

Lemma mapM3_shape {A B} (g : A -> result B) (t : list (list (list A)))
  (out : list (list (list B))) :
  mapM (mapM (mapM g)) t = Ok out -> shape3 out = shape3 t.
Proof.
  unfold shape3. apply mapM_map_measure. intros fs rows _.
  apply mapM_map_measure. intros face row _. apply mapM_length.
Qed.

Lemma shape3_map {A B} (g : A -> B) (t : list (list (list A))) :
  shape3 (map (map (map g)) t) = shape3 t.
Proof.
  unfold shape3. rewrite map_map. apply map_ext. intros fs.
  rewrite map_map. apply map_ext. intros face. apply length_map.
Qed.

Lemma shape3_shifted {A B} (g : B -> A -> A) (t : list (list (list A)))
  (offs : list B) :
  length offs = length t ->
  shape3 (map2 (fun fs o => map (map (g o)) fs) t offs) = shape3 t.
Proof.
  revert offs. induction t as [|fs t IH]; intros [|o offs] H;
    simpl in *; try discriminate; [reflexivity|].
  unfold shape3 in *. simpl. f_equal.
  - rewrite map_map. apply map_ext. intros face. apply length_map.
  - apply IH. lia.
Qed.

(** X10: a single batch of vertices serves every batch of faces: with
    vertices of shape 1 x V x 3 and every index in [0, V), the gather
    succeeds for any number of face batches, the result has the layout of
    the faces, and entry (b, f, c) is vertices[0][faces[b][f][c]]. *)
Theorem vertices_to_faces_single_batch :
  forall (vs : list vec3) (faces : faces_t),
    (forall b f c i, get3 faces b f c = Some i ->
                     (0 <= i < Z.of_nat (length vs))%Z) ->
    exists out,
      vertices_to_faces [vs] faces = Ok out
      /\ shape3 out = shape3 faces
      /\ forall b f c i, get3 faces b f c = Some i ->
                         get3 out b f c = nth_error vs (Z.to_nat i).
Proof.
  intros vs faces Hrange. unfold vertices_to_faces.
  cbn [length arange seq map shape1 concat].
  rewrite add_batch_offset_single, app_nil_r. cbn [bind].
  destruct (@gather_flat _ vs
              (map (map (map (fun i =>
                 (i + Z.of_nat 0 * Z.of_nat (length vs))%Z))) faces))
    as (out & Hout & Hget).
  { intros b f c j Hj. rewrite get3_map in Hj.
    destruct (get3 faces b f c) as [i|] eqn:Hi; [|discriminate].
    injection Hj as <-. pose proof (Hrange _ _ _ _ Hi). lia. }
  exists out. split; [exact Hout|]. split.
  - rewrite (mapM3_shape _ _ Hout). apply shape3_map.
  - intros b f c i Hi.
    rewrite (Hget b f c (i + Z.of_nat 0 * Z.of_nat (length vs))%Z).
    + f_equal. lia.
    + rewrite get3_map, Hi. reflexivity.
Qed.

Lemma vertices_to_faces_single_batch_witness :
  (forall b f c i,
     get3 [[[0; 1; 2]]; [[2; 1; 0]]]%Z b f c = Some i ->
     (0 <= i < Z.of_nat (length [V3 0 0 0; V3 1 0 0; V3 0 1 0]))%Z)
  /\ exists out,
       vertices_to_faces [[V3 0 0 0; V3 1 0 0; V3 0 1 0]]
         [[[0; 1; 2]]; [[2; 1; 0]]]%Z = Ok out
       /\ shape3 out = [[3]; [3]]%nat.
Proof.
  assert (H : forall b f c i,
            get3 [[[0; 1; 2]]; [[2; 1; 0]]]%Z b f c = Some i ->
            (0 <= i < Z.of_nat (length [V3 0 0 0; V3 1 0 0; V3 0 1 0]))%Z).
  { intros b f c i. unfold get3.
    destruct b as [|[|[|b]]]; simpl; try discriminate;
      destruct f as [|[|f]]; simpl; try discriminate;
      destruct c as [|[|[|[|c]]]]; simpl; try discriminate;
      intros E; injection E as <-; lia. }
  split; [exact H|].
  destruct (vertices_to_faces_single_batch _ _ H) as (out & Hout & Hs & _).
  exists out. split; [exact Hout | exact Hs].
Defined.

Lemma vertices_to_faces_shifted (vertices : vertices_t) (faces : faces_t) :
  length faces = length vertices ->
  vertices_to_faces vertices faces
  = mapM (mapM (mapM (index_row (concat vertices))))
      (map2 (fun fs o => map (map (fun i => (i + o)%Z)) fs) faces
         (map (fun k => (k * Z.of_nat (shape1 vertices))%Z)
            (arange (length faces)))).
Proof.
  intros Hlen. unfold vertices_to_faces, add_batch_offset.
  unfold arange at 1. rewrite !length_map, length_seq, <- Hlen.
  rewrite Nat.eqb_refl. reflexivity.
Qed.

(** X11: when faces and vertices have the same number of batches and the
    gather succeeds, the result has the layout of the faces: as many
    batches, as many faces in each, as many corners in each face. *)
Theorem vertices_to_faces_layout :
  forall (vertices : vertices_t) (faces : faces_t) out,
    length faces = length vertices ->
    vertices_to_faces vertices faces = Ok out ->
    shape3 out = shape3 faces.
Proof.
  intros vertices faces out Hlen H.
  rewrite (vertices_to_faces_shifted _ _ Hlen) in H.
  rewrite (mapM3_shape _ _ H).
  apply (shape3_shifted (fun o i => (i + o)%Z)).
  unfold arange. now rewrite !length_map, length_seq.
Qed.

Lemma vertices_to_faces_layout_witness :
  length triangle_faces = length triangle_vertices
  /\ exists out,
       vertices_to_faces triangle_vertices triangle_faces = Ok out
       /\ shape3 out = shape3 triangle_faces.
Proof.
  assert (H : length triangle_faces = length triangle_vertices)
    by reflexivity.
  split; [exact H|]. eexists.
  match goal with |- ?A /\ _ => assert (Ho : A) by reflexivity end.
  split; [exact Ho|].
  exact (vertices_to_faces_layout _ _ H Ho).
Defined.

(** * The gather on back-filled faces *)

Lemma mapM_ok_map {A B} (f f' : A -> result B) (h : B -> B) (l : list A)
  (out : list B) :
  (forall x y, In x l -> f x = Ok y -> f' x = Ok (h y)) ->
  mapM f l = Ok out -> mapM f' l = Ok (map h out).
Proof.
  revert out. induction l as [|x l IH]; intros out Hh H; simpl in H.
  - injection H as <-. reflexivity.
  - bind_inv H. bind_inv H. injection H as <-. simpl.
    rewrite (Hh x a (or_introl eq_refl) Ha). simpl.
    rewrite (IH a0); [reflexivity | | exact Ha0].
    intros x' y' Hin. apply Hh. now right.
Qed.

Lemma shift_both_windings (h : Z -> Z) (fs : list (list Z)) :
  map (map h) (fs ++ map (@rev Z) fs)
  = map (map h) fs ++ map (@rev Z) (map (map h) fs).
Proof.
  rewrite map_app, !map_map. f_equal. apply map_ext. intros face.
  apply map_rev.
Qed.

Lemma add_batch_offset_both_windings (faces : faces_t) (offs : list Z) :
  add_batch_offset (map (fun fs => fs ++ map (@rev Z) fs) faces) offs
  = (t <- add_batch_offset faces offs ;;
     Ok (map (fun fs => fs ++ map (@rev Z) fs) t)).
Proof.
  unfold add_batch_offset. rewrite length_map.
  destruct (Nat.eqb (length faces) (length offs)).
  { cbn [bind]. f_equal. revert offs.
    induction faces as [|fs faces IH]; intros [|o offs]; simpl;
      try reflexivity.
    now rewrite IH, shift_both_windings. }
  destruct (Nat.eqb_spec (length faces) 1) as [E|E].
  { cbn [bind]. f_equal.
    destruct faces as [|fs [|fs' faces]]; try discriminate. simpl.
    rewrite map_map. apply map_ext. intros o. apply shift_both_windings. }
  destruct (Nat.eqb (length offs) 1); [|reflexivity].
  cbn [bind]. f_equal. rewrite !map_map. apply map_ext. intros fs.
  apply shift_both_windings.
Qed.

Lemma gather_both_windings {B} (g : Z -> result B) (t : faces_t)
  (out : list (list (list B))) :
  mapM (mapM (mapM g)) t = Ok out ->
  mapM (mapM (mapM g)) (map (fun fs => fs ++ map (@rev Z) fs) t)
  = Ok (map (fun rows => rows ++ map (@rev B) rows) out).
Proof.
  intros H. rewrite mapM_map.
  apply (mapM_ok_map (mapM (mapM g))); [|exact H].
  intros fs rows _ Hfs. rewrite mapM_app, Hfs. cbn [bind].
  rewrite mapM_map.
  rewrite (mapM_ok_map (mapM g) (fun face => mapM g (rev face))
             (@rev B) fs (out := rows)); [reflexivity | | exact Hfs].
  intros face row _. apply mapM_rev_ok.
Qed.

Lemma gather_both_windings_fails {B} (g : Z -> result B) (t : faces_t) :
  is_ok (mapM (mapM (mapM g)) t) = false ->
  is_ok (mapM (mapM (mapM g)) (map (fun fs => fs ++ map (@rev Z) fs) t))
  = false.
Proof.
  rewrite !is_ok_mapM3_false. intros (b & f & c & x & Hx & Hbad).
  exists b, f, c, x. split; [|exact Hbad].
  unfold get3 in *. rewrite nth_error_map.
  destruct (nth_error t b) as [fs|]; [|discriminate]. simpl.
  destruct (nth_error fs f) as [face|] eqn:Hf; [|discriminate].
  rewrite nth_error_app1 by (apply nth_error_Some; congruence).
  now rewrite Hf.
Qed.

(** X12: the gather goes through back-face duplication: on faces of shape
    B x F x n, if [vertices_to_faces] succeeds on the faces it succeeds on
    the back-filled faces, and returns each batch followed by the same
    triangles with their corners in reverse order; if it fails on the faces
    it fails on the back-filled faces. *)
Theorem gather_after_fill_back :
  forall (vertices : vertices_t) (faces : faces_t) (F n : nat),
    faces_shape faces F n ->
    match vertices_to_faces vertices faces with
    | Ok out =>
        vertices_to_faces vertices (fill_back_faces faces)
        = Ok (map (fun rows => rows ++ map (@rev vec3) rows) out)
    | Err _ =>
        is_ok (vertices_to_faces vertices (fill_back_faces faces)) = false
    end.
Proof.
  intros vertices faces F n Hs.
  rewrite (fill_back_faces_spec Hs). unfold vertices_to_faces.
  rewrite add_batch_offset_both_windings.
  destruct (add_batch_offset faces _) as [t|e]; cbn [bind]; [|reflexivity].
  destruct (mapM (mapM (mapM (index_row (concat vertices)))) t)
    as [out|e] eqn:Hout.
  - now apply gather_both_windings.
  - apply gather_both_windings_fails. now rewrite Hout.
Qed.

Lemma gather_after_fill_back_witness :
  faces_shape triangle_faces 1 3
  /\ vertices_to_faces triangle_vertices (fill_back_faces triangle_faces)
     = Ok [[[V3 0 0 0; V3 1 0 0; V3 0 1 0]; [V3 0 1 0; V3 1 0 0; V3 0 0 0]]].
Proof.
  assert (Hs : faces_shape triangle_faces 1 3) by (repeat constructor).
  split; [exact Hs|].
  exact (gather_after_fill_back triangle_vertices Hs).
Defined.

(** * What [render] depends on *)

Lemma render_same_config (r1 r2 : Type)
  (soft_rasterize : vertices_t -> option (tensor R) -> result (tensor R))
  (compute_ambient_light compute_directional_light :
     list (list (list vec3)) -> option (tensor R) -> R -> tensor R ->
     result (tensor R))
  (s1 : SoftRenderer r1) (s2 : SoftRenderer r2)
  vertices faces textures mode K1 rmat1 tvec1 K2 rmat2 tvec2 :
  same_render_config s1 s2 ->
  render soft_rasterize compute_ambient_light compute_directional_light
    s1 vertices faces textures mode K1 rmat1 tvec1
  = render soft_rasterize compute_ambient_light compute_directional_light
      s2 vertices faces textures mode K2 rmat2 tvec2.
Proof.
  intros (H1 & H2 & H3 & H4 & H5 & H6 & H7 & H8 & H9).
  unfold render, fill_back_stage, lighting_stage, lighting,
    transform_to_camera_frame, project_to_image.
  rewrite H1, H2, H3, H4, H5, H6, H7, H8, H9. reflexivity.
Qed.

Lemma init_same_config (r1 r2 : Type)
  (SR1 : rasterizer_args -> result r1) (SR2 : rasterizer_args -> result r2)
  (a1 a2 : init_args) (s1 : SoftRenderer r1) (s2 : SoftRenderer r2) :
  same_render_args a1 a2 ->
  __init__ SR1 a1 = Ok s1 -> __init__ SR2 a2 = Ok s2 ->
  same_render_config s1 s2.
Proof.
  intros (H1 & H2 & H3 & H4 & H5 & H6 & H7) I1 I2.
  unfold __init__ in I1, I2. bind_inv I1. bind_inv I2.
  injection I1 as <-. injection I2 as <-.
  unfold same_render_config. simpl.
  rewrite H1, H2, H3, H4, H5, H6, H7. repeat split; reflexivity.
Qed.



Section RenderModes.

Variable rasterizer : Type.
Variable soft_rasterize :
  vertices_t -> option (tensor R) -> result (tensor R).
Variable compute_ambient_light compute_directional_light :
  list (list (list vec3)) -> option (tensor R) -> R -> tensor R ->
  result (tensor R).

Local Abbreviation Render :=
  (render soft_rasterize compute_ambient_light compute_directional_light).

(** X14: the faces are used by the lighting only; the rasterizer is handed
    the vertices and the textures.  So with mode 'depth' or 'silhouette',
    where lighting is skipped, [render] returns the same whatever the
    faces. *)
Theorem render_ignores_faces_without_lighting :
  forall (self : SoftRenderer rasterizer) vertices faces1 faces2 textures
         (mode : string) K rmat tvec,
    mode = "depth" \/ mode = "silhouette" ->
    Render self vertices faces1 textures (Some mode) K rmat tvec
    = Render self vertices faces2 textures (Some mode) K rmat tvec.
Proof.
  intros self vertices faces1 faces2 textures mode K0 rmat0 tvec0 Hm.
  assert (Hin : mode_in (Some mode) ["depth"; "silhouette"] = true)
    by (destruct Hm as [-> | ->]; reflexivity).
  unfold render, fill_back_stage, lighting_stage. rewrite Hin.
  destruct (fill_back self); [|reflexivity].
  destruct textures as [t|]; [|reflexivity].
  destruct (cat1 t t); reflexivity.
Qed.

(** X15: [render] tells only two classes of modes apart: 'silhouette' is
    treated as 'depth', and any other mode string ('rgb' among them) as
    None. *)
Theorem render_mode_classes :
  forall (self : SoftRenderer rasterizer) vertices faces textures K rmat tvec,
    Render self vertices faces textures (Some "silhouette") K rmat tvec
    = Render self vertices faces textures (Some "depth") K rmat tvec
    /\ forall mode : string,
         mode <> "depth" -> mode <> "silhouette" ->
         Render self vertices faces textures (Some mode) K rmat tvec
         = Render self vertices faces textures None K rmat tvec.
Proof.
  intros self vertices faces textures K0 rmat0 tvec0.
  split; [reflexivity|]. intros mode Hd Hs.
  unfold render, lighting_stage.
  assert (Hin : mode_in (Some mode) ["depth"; "silhouette"] = false).
  { simpl. apply String.eqb_neq in Hd, Hs. now rewrite Hd, Hs. }
  rewrite Hin. reflexivity.
Qed.

End RenderModes.

Lemma render_ignores_faces_without_lighting_witness :
  ("depth" = "depth" \/ "depth" = "silhouette")
  /\ exists self,
       __init__ accept_rasterizer
         (set_arg_camera_mode default_args "look_at") = Ok self
       /\ render (fixed_rasterize pixel) flat_light flat_light self
            triangle_vertices triangle_faces (Some triangle_textures)
            (Some "depth") None None None
          = render (fixed_rasterize pixel) flat_light flat_light self
              triangle_vertices [[[7; 8; 9]]]%Z (Some triangle_textures)
              (Some "depth") None None None.
Proof.
  assert (H : "depth" = "depth" \/ "depth" = "silhouette")
    by (left; reflexivity).
  split; [exact H|]. eexists. split; [reflexivity|].
  exact (@render_ignores_faces_without_lighting _ (fixed_rasterize pixel)
           flat_light flat_light _ triangle_vertices triangle_faces
           [[[7; 8; 9]]]%Z (Some triangle_textures) "depth" None None None H).
Defined.

Lemma render_mode_classes_witness :
  "rgb" <> "depth" /\ "rgb" <> "silhouette"
  /\ exists self,
       __init__ accept_rasterizer
         (set_arg_camera_mode default_args "look_at") = Ok self
       /\ render (fixed_rasterize pixel) flat_light flat_light self
            triangle_vertices triangle_faces (Some triangle_textures)
            (Some "rgb") None None None
          = render (fixed_rasterize pixel) flat_light flat_light self
              triangle_vertices triangle_faces (Some triangle_textures)
              None None None None.
Proof.
  assert (H1 : "rgb" <> "depth") by discriminate.
  assert (H2 : "rgb" <> "silhouette") by discriminate.
  repeat (split; [assumption|]). eexists. split; [reflexivity|].
  exact (proj2 (@render_mode_classes _ (fixed_rasterize pixel) flat_light
                  flat_light _ triangle_vertices triangle_faces
                  (Some triangle_textures) None None None) "rgb" H1 H2).
Defined.

(** * The buffers returned by [render] *)

Lemma slice_rgb_shape {A} (out : tensor A) (B C H W : nat) :
  shape out = [B; C; H; W]%nat -> wf out -> (3 <= C)%nat ->
  exists c, slice_rgb out = Ok c /\ shape c = [B; 3; H; W]%nat /\ wf c.
Proof.
  intros Hs Hw HC. unfold slice_rgb. rewrite Hs.
  eexists. split; [reflexivity|]. cbn [shape].
  rewrite Nat.min_l by exact HC. split; [reflexivity|].
  unfold wf in *. cbn [shape data]. rewrite Hs in Hw.
  set (p := numel [H; W]%nat) in *.
  rewrite (@length_concat_rect _ _ (3 * p)).
  - rewrite length_map, length_chunks. rewrite !numel_cons. fold p.
    reflexivity.
  - rewrite Forall_map.
    eapply Forall_impl; [|apply (chunks_lengths (C * p) B)].
    + intros ch Hch. rewrite length_firstn, Hch.
      assert (Hx : (3 * p <= C * p)%nat)
        by (apply Nat.mul_le_mono_r; exact HC).
      lia.
    + rewrite Hw. apply Nat.le_refl.
Qed.

Lemma select_depth_shape {A} (out : tensor A) (B C H W : nat) :
  shape out = [B; C; H; W]%nat -> wf out -> (3 < C)%nat ->
  exists d, select_depth out = Ok d /\ shape d = [B; H; W]%nat /\ wf d.
Proof.
  intros Hs Hw HC. unfold select_depth. rewrite Hs.
  destruct (Nat.ltb_spec 3 C); [|lia].
  eexists. split; [reflexivity|]. split; [reflexivity|].
  unfold wf in *. cbn [shape data]. rewrite Hs in Hw.
  set (p := numel [H; W]%nat) in *.
  rewrite (@length_concat_rect _ _ p).
  - rewrite length_map, length_chunks. rewrite !numel_cons. fold p.
    reflexivity.
  - rewrite Forall_map.
    eapply Forall_impl; [|apply (chunks_lengths (C * p) B)].
    + intros ch Hch. rewrite length_firstn, length_skipn, Hch.
      assert (Hx : (4 * p <= C * p)%nat)
        by (apply Nat.mul_le_mono_r; lia).
      lia.
    + rewrite Hw. apply Nat.le_refl.
Qed.

Lemma select_depth_few_channels {A} (out : tensor A) (B C H W : nat) :
  shape out = [B; C; H; W]%nat -> (C <= 3)%nat ->
  select_depth out = Err IndexError.
Proof.
  intros Hs HC. unfold select_depth. rewrite Hs.
  destruct (Nat.ltb_spec 3 C); [lia | reflexivity].
Qed.

Section RenderBuffers.

Variable rasterizer : Type.
Variable soft_rasterize :
  vertices_t -> option (tensor R) -> result (tensor R).
Variable compute_ambient_light compute_directional_light :
  list (list (list vec3)) -> option (tensor R) -> R -> tensor R ->
  result (tensor R).

Local Abbreviation Render :=
  (render soft_rasterize compute_ambient_light compute_directional_light).


(** X17: without textures (the default of [render]) a call can return only
    when fill_back is off and the mode is 'depth' or 'silhouette'; with
    fill_back on (the default of the constructor) it raises TypeError. *)
Theorem render_without_textures :
  forall (self : SoftRenderer rasterizer) vertices faces mode K rmat tvec,
    (fill_back self = true ->
     Render self vertices faces None mode K rmat tvec = Err TypeError)
    /\ (forall b,
          Render self vertices faces None mode K rmat tvec = Ok b ->
          fill_back self = false
          /\ mode_in mode ["depth"; "silhouette"] = true).
Proof.
  intros self vertices faces mode K0 rmat0 tvec0.
  assert (Hfb : fill_back self = true ->
                Render self vertices faces None mode K0 rmat0 tvec0
                = Err TypeError).
  { intros Hf. unfold render, fill_back_stage. rewrite Hf. reflexivity. }
  split; [exact Hfb|]. intros b Hb.
  destruct (fill_back self) eqn:Hf.
  { rewrite (Hfb eq_refl) in Hb. discriminate. }
  split; [reflexivity|].
  destruct (mode_in mode ["depth"; "silhouette"]) eqn:Hin; [reflexivity|].
  exfalso. unfold render, fill_back_stage, lighting_stage in Hb.
  rewrite Hf, Hin in Hb. cbn [bind fst snd negb] in Hb.
  unfold lighting in Hb.
  destruct (vertices_to_faces vertices faces); cbn [bind] in Hb;
    [|discriminate].
  destruct (compute_ambient_light _ _ _ _); cbn [bind] in Hb;
    [|discriminate].
  destruct (compute_directional_light _ _ _ _); cbn [bind] in Hb;
    [|discriminate].
  repeat (match type of Hb with
          | context [squeeze 2 ?t] => destruct (squeeze 2 t)
          end; cbn [bind] in Hb; [|discriminate]).
  discriminate.
Qed.

End RenderBuffers.

Lemma fixed_rasterize_shape :
  forall vs tx out, fixed_rasterize pixel vs tx = Ok out ->
    wf out /\ exists B C H W, shape out = [B; C; H; W]%nat.
Proof.
  intros vs tx out H. injection H as <-. split; [reflexivity|].
  exists 1%nat, 4%nat, 1%nat, 1%nat. reflexivity.
Qed.


Lemma render_without_textures_witness :
  exists self,
    __init__ accept_rasterizer (set_arg_camera_mode default_args "look_at")
    = Ok self
    /\ fill_back self = true
    /\ render (fixed_rasterize pixel) flat_light flat_light self
         triangle_vertices triangle_faces None (Some "depth") None None None
       = Err TypeError.
Proof.
  eexists. split; [reflexivity|]. split; [reflexivity|].
  apply (proj1 (@render_without_textures _ (fixed_rasterize pixel)
                  flat_light flat_light _ triangle_vertices triangle_faces
                  (Some "depth") None None None)).
  reflexivity.
Defined.

(** * [rasterize] *)

Lemma vertices_to_faces_in_range (vertices : vertices_t) (faces : faces_t)
  (V : nat) :
  Forall (fun vs => length vs = V) vertices ->
  length faces = length vertices ->
  (forall b f c i, get3 faces b f c = Some i -> (0 <= i < Z.of_nat V)%Z) ->
  exists out, vertices_to_faces vertices faces = Ok out.
Proof.
  intros Hrect Hlen Hrange.
  rewrite (vertices_to_faces_shifted _ _ Hlen).
  destruct (@gather_flat _ (concat vertices)
              (map2 (fun fs o => map (map (fun i => (i + o)%Z)) fs) faces
                 (map (fun k => (k * Z.of_nat (shape1 vertices))%Z)
                    (arange (length faces))))) as (out & Hout & _);
    [|exists out; exact Hout].
  intros b f c j Hj. rewrite get3_shifted in Hj.
  destruct (get3 faces b f c) as [i|] eqn:Hi; [|discriminate].
  injection Hj as <-. pose proof (Hrange _ _ _ _ Hi) as Hr.
  assert (Hb : (b < length vertices)%nat).
  { rewrite <- Hlen. apply nth_error_Some. unfold get3 in Hi.
    destruct (nth_error faces b); [discriminate | discriminate]. }
  assert (HV : shape1 vertices = V).
  { apply shape1_rect; [exact Hrect|]. intros ->. simpl in Hb. lia. }
  rewrite HV, (length_concat_rect Hrect). nia.
Qed.

(** X18: [rasterize] never returns: it propagates the failure of the
    gather, and when the gather succeeds (vertices B x V x 3, faces with B
    batches, every index in [0, V)) it raises NameError, because
    [soft_rasterize_cuda] is not a name of the module. *)
Theorem rasterize_raises :
  forall (rasterizer : Type) (self : SoftRenderer rasterizer)
         (vertices : vertices_t) (faces : faces_t)
         (textures : option (tensor R)),
    is_ok (rasterize self vertices faces textures) = false
    /\ forall V : nat,
         Forall (fun vs => length vs = V) vertices ->
         length faces = length vertices ->
         (forall b f c i, get3 faces b f c = Some i ->
                          (0 <= i < Z.of_nat V)%Z) ->
         rasterize self vertices faces textures
         = Err (NameError "soft_rasterize_cuda").
Proof.
  intros rasterizer self vertices faces textures. unfold rasterize. split.
  - destruct (vertices_to_faces vertices faces); reflexivity.
  - intros V Hrect Hlen Hrange.
    destruct (vertices_to_faces_in_range faces Hrect Hlen Hrange)
      as (out & ->).
    reflexivity.
Qed.

Lemma triangle_faces_in_range :
  forall b f c i, get3 triangle_faces b f c = Some i -> (0 <= i < 3)%Z.
Proof.
  intros b f c i. unfold get3, triangle_faces.
  destruct b as [|[|b]]; simpl; try discriminate.
  destruct f as [|[|f]]; simpl; try discriminate.
  destruct c as [|[|[|[|c]]]]; simpl; try discriminate;
    intros H; injection H as <-; lia.
Qed.

Lemma rasterize_raises_witness :
  Forall (fun vs => length vs = 3%nat) triangle_vertices
  /\ length triangle_faces = length triangle_vertices
  /\ (forall b f c i, get3 triangle_faces b f c = Some i -> (0 <= i < 3)%Z)
  /\ exists self,
       __init__ accept_rasterizer default_args = Ok self
       /\ rasterize self triangle_vertices triangle_faces
            (Some triangle_textures)
          = Err (NameError "soft_rasterize_cuda").
Proof.
  assert (H1 : Forall (fun vs => length vs = 3%nat) triangle_vertices)
    by (repeat constructor).
  assert (H2 : length triangle_faces = length triangle_vertices)
    by reflexivity.
  repeat (split; [assumption || exact triangle_faces_in_range|]).
  eexists. split; [reflexivity|].
  exact (proj2 (rasterize_raises _ triangle_vertices triangle_faces
                  (Some triangle_textures)) 3%nat H1 H2
           triangle_faces_in_range).
Defined.

(** * The layout of the lit textures *)

Lemma bshape_aligned_texture (B F X T : nat) :
  X = 1%nat \/ X = T ->
  bshape_aligned [B; F; X; 3]%nat [B; F; T; 3]%nat = Some [B; F; T; 3]%nat.
Proof.
  intros HX. simpl. unfold bdim. rewrite !Nat.eqb_refl.
  destruct (Nat.eqb_spec X T) as [E|E]; [reflexivity|].
  destruct HX as [-> | ->]; [reflexivity | contradiction].
Qed.

Lemma binop_texture_shape {A} (f : A -> A -> A) (x y : tensor A)
  (B F X T : nat) :
  shape x = [B; F; X; 3]%nat -> shape y = [B; F; T; 3]%nat ->
  X = 1%nat \/ X = T -> wf x -> wf y ->
  exists r, binop f x y = Ok r /\ shape r = [B; F; T; 3]%nat /\ wf r.
Proof.
  intros Hx Hy HX Wx Wy.
  assert (Lx : (length (shape x) <= 4)%nat) by (rewrite Hx; simpl; lia).
  assert (Ly : (length (shape y) <= 4)%nat) by (rewrite Hy; simpl; lia).
  pose proof (bshape_aligned_texture B F HX) as Hb.
  destruct (binop f x y) as [r|e] eqn:Hr.
  - destruct (@binop_ok_lift _ 4 f x y r Lx Ly Wx Wy Hr)
      as (Hs & Hl & _ & Wr).
    exists r. split; [reflexivity|]. split; [|exact Wr].
    rewrite Hx, Hy in Hs, Hl. simpl in Hl.
    rewrite (@pad_full 4 [B; F; X; 3]%nat) in Hs by (simpl; lia).
    rewrite (@pad_full 4 [B; F; T; 3]%nat) in Hs by (simpl; lia).
    rewrite (@pad_full 4 (shape r)) in Hs by lia.
    congruence.
  - destruct (@binop_err_lift _ 4 f x y e Lx Ly Hr) as (_ & Hs).
    rewrite Hx, Hy in Hs.
    rewrite (@pad_full 4 [B; F; X; 3]%nat) in Hs by (simpl; lia).
    rewrite (@pad_full 4 [B; F; T; 3]%nat) in Hs by (simpl; lia).
    congruence.
Qed.

Lemma squeeze_twice_six {A} (t : tensor A) (B F X : nat) :
  shape t = [B; F; 1; 1; X; 3]%nat -> wf t ->
  exists t1 t2,
    squeeze 2 t = Ok t1 /\ squeeze 2 t1 = Ok t2
    /\ shape t2 = [B; F; X; 3]%nat /\ wf t2.
Proof.
  intros Hs Hw.
  exists (mkTensor [B; F; 1; X; 3]%nat (data t)),
         (mkTensor [B; F; X; 3]%nat (data t)).
  unfold squeeze. rewrite Hs. simpl.
  repeat split. unfold wf in *. cbn [shape data]. rewrite Hw, Hs.
  rewrite !numel_cons. lia.
Qed.

Section LightingLayout.

Variable rasterizer : Type.
Variable compute_ambient_light compute_directional_light :
  list (list (list vec3)) -> option (tensor R) -> R -> tensor R ->
  result (tensor R).

(** X19: with lighting terms of the six-dimensional layout
    B x F x 1 x 1 x X x 3 (X = 1 or X = T) and textures B x F x T x 3, all
    well-formed, the lighting stage succeeds once the gather and the two
    collaborators do, and the lit textures have the layout B x F x T x 3 of
    the textures. *)
Theorem lighting_keeps_texture_layout :
  forall (self : SoftRenderer rasterizer) vertices faces textures
         fv amb dir (B F X T : nat),
    vertices_to_faces vertices faces = Ok fv ->
    compute_ambient_light fv (Some textures)
      (light_intensity_ambient self) (light_color_ambient self) = Ok amb ->
    compute_directional_light fv (Some textures)
      (light_intensity_directional self) (light_color_directional self)
    = Ok dir ->
    shape amb = [B; F; 1; 1; X; 3]%nat -> wf amb ->
    shape dir = [B; F; 1; 1; X; 3]%nat -> wf dir ->
    shape textures = [B; F; T; 3]%nat -> wf textures ->
    X = 1%nat \/ X = T ->
    exists lit,
      lighting compute_ambient_light compute_directional_light
        self vertices faces (Some textures) = Ok lit
      /\ shape lit = [B; F; T; 3]%nat /\ wf lit.
Proof.
  intros self vertices faces textures fv amb dir B F X T
    Hfv Ha Hd Sa Wa Sd Wd St Wt HX.
  unfold lighting. rewrite Hfv. cbn [bind]. rewrite Ha. cbn [bind].
  rewrite Hd. cbn [bind].
  destruct (@squeeze_twice_six _ amb B F X Sa Wa) as (a1 & a2 & -> & Ha2 & Sa2 & Wa2).
  cbn [bind]. rewrite Ha2. cbn [bind].
  destruct (@squeeze_twice_six _ dir B F X Sd Wd) as (d1 & d2 & -> & Hd2 & Sd2 & Wd2).
  cbn [bind]. rewrite Hd2. cbn [bind].
  destruct (@binop_texture_shape _ Rmult a2 textures B F X T
              Sa2 St HX Wa2 Wt) as (m1 & Hm1 & S1 & W1).
  destruct (@binop_texture_shape _ Rmult d2 textures B F X T
              Sd2 St HX Wd2 Wt) as (m2 & Hm2 & S2 & W2).
  unfold tmul, tadd. rewrite Hm1. cbn [bind]. rewrite Hm2. cbn [bind].
  exact (@binop_texture_shape _ Rplus m1 m2 B F T T S1 S2
           (or_intror eq_refl) W1 W2).
Qed.

End LightingLayout.

Lemma lighting_keeps_texture_layout_witness :
  exists self,
    __init__ accept_rasterizer (set_arg_camera_mode default_args "look_at")
    = Ok self
    /\ shape triangle_textures = [1; 1; 1; 3]%nat
    /\ wf triangle_textures
    /\ (1 = 1 \/ 1 = 1)%nat
    /\ exists lit,
         lighting face_light face_light self triangle_vertices
           triangle_faces (Some triangle_textures) = Ok lit
         /\ shape lit = [1; 1; 1; 3]%nat /\ wf lit.
Proof.
  eexists. split; [reflexivity|]. split; [reflexivity|].
  split; [reflexivity|]. split; [left; reflexivity|].
  eapply (@lighting_keeps_texture_layout _ face_light face_light _
            triangle_vertices triangle_faces triangle_textures _ _ _
            1%nat 1%nat 1%nat 1%nat);
    try reflexivity.
  left; reflexivity.
Defined.
